(** * The JSON viewer of app/ui/components/json-viewer.js

    A shallow embedding of the two React components of the file,
    [JSONViewer] and [JSONViewerObj], and of the part of React and of
    JavaScript they rely on: strings as sequences of UTF-16 code units, the
    enumeration order of [Object.keys], component state kept per instance
    and the recursive rendering of child components. *)

From Stdlib Require Import ZArith String Ascii Decimal DecimalNat.
From stdpp Require Import gmap list sorting.

Local Open Scope nat_scope.
Set Warnings "-register-all".

(** ** JavaScript strings *)

(** A JavaScript string is a sequence of UTF-16 code units; [length] and
    [slice] count code units. *)
Abbreviation jsstring := (list N).

(** An ASCII literal as a JavaScript string. *)
Definition lit (s : string) : jsstring :=
  map N_of_ascii (list_ascii_of_string s).

(** The character U+2026, one code unit. *)
Definition ellipsis : jsstring := [8230%N].

(** [s.slice(start)] and [s.slice(0, stop)] for indices inside the string. *)
Definition slice_from (s : jsstring) (start : nat) : jsstring := drop start s.
Definition slice_to (s : jsstring) (stop : nat) : jsstring := take stop s.

Fixpoint uint_units (d : Decimal.uint) : jsstring :=
  match d with
  | Decimal.Nil => []
  | Decimal.D0 d => 48%N :: uint_units d
  | Decimal.D1 d => 49%N :: uint_units d
  | Decimal.D2 d => 50%N :: uint_units d
  | Decimal.D3 d => 51%N :: uint_units d
  | Decimal.D4 d => 52%N :: uint_units d
  | Decimal.D5 d => 53%N :: uint_units d
  | Decimal.D6 d => 54%N :: uint_units d
  | Decimal.D7 d => 55%N :: uint_units d
  | Decimal.D8 d => 56%N :: uint_units d
  | Decimal.D9 d => 57%N :: uint_units d
  end.

(** The template literal [`${n}`] of a non-negative integer. *)
Definition nat_toString (n : nat) : jsstring := uint_units (Nat.to_uint n).

(** ** Property keys and the order of [Object.keys] *)

Definition digit (c : N) : option N :=
  if ((48 <=? c) && (c <=? 57))%N then Some (c - 48)%N else None.

Fixpoint digits_value (acc : N) (s : jsstring) : option N :=
  match s with
  | [] => Some acc
  | c :: s' =>
      match digit c with
      | Some d => digits_value (10 * acc + d)%N s'
      | None => None
      end
  end.

(** A key is an array index when it is the canonical decimal form of an
    integer between 0 and 2^32 - 2. *)
Definition array_index (k : jsstring) : option N :=
  match k with
  | [] => None
  | c :: rest =>
      if ((c =? 48)%N && negb (bool_decide (rest = []))) then None
      else match digits_value 0 k with
           | Some n => if (n <=? 4294967294)%N then Some n else None
           | None => None
           end
  end.

Definition is_array_index (k : jsstring) : bool :=
  match array_index k with Some _ => true | None => false end.

Fixpoint insert_index (x : N * jsstring) (l : list (N * jsstring))
  : list (N * jsstring) :=
  match l with
  | [] => [x]
  | y :: l' => if (x.1 <=? y.1)%N then x :: l else y :: insert_index x l'
  end.

Definition sort_index (l : list (N * jsstring)) : list (N * jsstring) :=
  foldr insert_index [] l.

(** The array indices among the keys, each with its numeric value. *)
Fixpoint index_keys (ks : list jsstring) : list (N * jsstring) :=
  match ks with
  | [] => []
  | k :: ks' =>
      match array_index k with
      | Some n => (n, k) :: index_keys ks'
      | None => index_keys ks'
      end
  end.

(** The own property keys of an ordinary object whose properties were
    created in the order [ks]: array indices first, in ascending numeric
    order, then every other key in creation order. *)
Definition own_keys (ks : list jsstring) : list jsstring :=
  map snd (sort_index (index_keys ks))
  ++ filter (fun k => is_array_index k = false) ks.

Section Viewer.

(** A number is an IEEE double; the viewer only observes its string form
    [`${n}`]. *)
Variable Number : Type.
Variable Number_toString : Number -> jsstring.

(** ** Values *)

(** The values a [JSONViewerObj] receives: what [JSON.parse] returns, and
    [undefined], which reading a missing element gives. The properties of an
    object are listed in creation order. *)
Inductive JSValue :=
| VNull
| VBoolean (b : bool)
| VNumber (n : Number)
| VString (s : jsstring)
| VArray (items : list JSValue)
| VObject (props : list (jsstring * JSValue))
| VUndefined.

Definition Object_keys (props : list (jsstring * JSValue)) : list jsstring :=
  own_keys (map fst props).

(** [value[key]] on an object. *)
Fixpoint Object_get (props : list (jsstring * JSValue)) (key : jsstring)
  : JSValue :=
  match props with
  | [] => VUndefined
  | (k, v) :: props' => if decide (k = key) then v else Object_get props' key
  end.

(** [value[key]] on an array. *)
Definition Array_get (items : list JSValue) (key : nat) : JSValue :=
  default VUndefined (items !! key).

(** [`${obj}`] for a value that is neither an array nor an object. *)
Definition toString (obj : JSValue) : jsstring :=
  match obj with
  | VNull => lit "null"
  | VBoolean true => lit "true"
  | VBoolean false => lit "false"
  | VNumber n => Number_toString n
  | VString s => s
  | VUndefined => lit "undefined"
  | VArray _ | VObject _ => []
  end.

(** ** JSONViewerObj *)

Definition PAGE_SIZE : nat := 25.
Definition MAX_VALUE_LENGTH : nat := 100.

Inductive Label :=
| LIndex (key : nat)
| LKey (key : jsstring).

(** The props. [hide] is left undefined at the root, which [classnames] and
    [||] treat as [false]. [onExpand] is the callback that measures the
    first column after an update; nothing rendered depends on it and it is
    left out. *)
Record Props2 := {
  paths : list jsstring;
  value : JSValue;
  label : option Label;
  hide : bool
}.

Record State2 := {
  expanded : bool;
  hasBeenExpanded : bool;
  page : nat
}.

(** The state set by the constructor. *)
Definition constructor (paths : list jsstring) : State2 :=
  {| expanded := bool_decide (length paths = 0);
     hasBeenExpanded := false;
     page := 0 |}.

Inductive TypeName :=
| Tboolean | Tobject | Tarray | Tnumber | Tstring | Tnull | Tunknown.

Definition getType (value : JSValue) : TypeName :=
  match value with
  | VBoolean _ => Tboolean
  | VObject _ => Tobject
  | VArray _ => Tarray
  | VNumber _ => Tnumber
  | VString _ => Tstring
  | VNull => Tnull
  | VUndefined => Tunknown
  end.

Definition isCollapsable (obj : JSValue) : bool :=
  match getType obj, obj with
  | Tstring, VString s => MAX_VALUE_LENGTH <? length s
  | Tarray, VArray items => 0 <? length items
  | Tobject, VObject props => 0 <? length (Object_keys props)
  | _, _ => false
  end.

(** What [getValue] returns next to the key cell: the bare text of an empty
    collection, the summary cell of a collapsed collection, or the value
    cell of a scalar. [None] stands for [null]. *)
Inductive Cell :=
| CellText (abbr : jsstring)
| CellSummary (abbr comment : jsstring)
| CellValue (type : TypeName) (displayValue : jsstring).

Definition plural (n : nat) : jsstring :=
  if decide (n = 1) then [] else lit "s".

Definition getValue (obj : JSValue) (collapsed : bool) : option Cell :=
  let summary (n : nat) (abbr comment : jsstring) :=
    if decide (n = 0) then Some (CellText abbr)
    else if collapsed then Some (CellSummary abbr comment)
    else None in
  match obj with
  | VArray items =>
      let n := length items in
      let comment :=
        if 0 <? n then lit "// " ++ nat_toString n ++ lit " item" ++ plural n
        else [] in
      let abbr :=
        if collapsed && (0 <? n) then lit "[" ++ ellipsis ++ lit "]"
        else lit "[]" in
      summary n abbr comment
  | VObject props =>
      let n := length (Object_keys props) in
      let comment :=
        if 0 <? n then lit "// " ++ nat_toString n ++ lit " key" ++ plural n
        else [] in
      let abbr :=
        if collapsed && (0 <? n) then lit "{" ++ ellipsis ++ lit "}"
        else lit "{}" in
      summary n abbr comment
  | _ =>
      let strObj := toString obj in
      let collapsable := MAX_VALUE_LENGTH <? length strObj in
      let displayValue :=
        if collapsable && collapsed then
          let halfOfMax := MAX_VALUE_LENGTH / 2 - 5 in
          let start := slice_to strObj halfOfMax in
          let end_ := slice_from strObj (length strObj - halfOfMax) in
          start ++ ellipsis ++ end_
        else strObj in
      Some (CellValue (getType obj) displayValue)
  end.

(** The two bound handlers of the instance mounted at [paths]. *)
Inductive Action :=
| ClickKey (paths : list jsstring)
| NextPage (paths : list jsstring).

#[global] Instance Action_eq_dec : EqDecision Action.
Proof. solve_decision. Defined.

Definition handleClickKey (state : State2) : State2 :=
  {| expanded := negb (expanded state);
     hasBeenExpanded := true;
     page := page state |}.

Definition handleNextPage (state : State2) : State2 :=
  {| expanded := expanded state;
     hasBeenExpanded := hasBeenExpanded state;
     page := page state + 1 |}.

(** The classes [classnames] puts on a row, [json-viewer__row] apart. *)
Record RowClasses := {
  cls_hide : bool;
  cls_collapsable : bool;
  cls_collapsed : bool
}.

(** The table rows. [indent] is the factor of [1.3em] in [paddingLeft].
    The row of key ["next"] and the error row carry no class. *)
Inductive Tr :=
| TrNode (key : jsstring) (classes : RowClasses) (indent : Z)
         (onClick : option Action) (keyLabel : option Label)
         (cell : option Cell)
| TrNext (indent : Z) (first last : nat) (onClick : Action)
         (caption : jsstring)
| TrError (text : jsstring).

(** What [render] returns: rows and child components. The React key of a
    child is its label. *)
Inductive Element :=
| ETr (tr : Tr)
| EJSONViewerObj (props : Props2).

(** [maxItem] is a number or [Infinity] ([None]). *)
Definition lt_maxItem (key : nat) (maxItem : option nat) : bool :=
  match maxItem with Some m => key <? m | None => true end.

Definition gt_maxItem (n : nat) (maxItem : option nat) : bool :=
  match maxItem with Some m => m <? n | None => false end.

(** The keys visited by
    [for (let key = 0; key < value.length && key < maxItem; key++)],
    with [remaining = value.length - key]. *)
Fixpoint array_loop (remaining key : nat) (maxItem : option nat) : list nat :=
  match remaining with
  | 0 => []
  | S r =>
      if lt_maxItem key maxItem then key :: array_loop r (S key) maxItem
      else []
  end.

Section Render.

Variable props : Props2.
Variable state : State2.

Definition collapsed : bool := negb (expanded state).

Definition rowClasses : RowClasses :=
  {| cls_hide := hide props;
     cls_collapsable := isCollapsable (value props);
     cls_collapsed := collapsed |}.

(** [onClick={collapsable ? this.handleClickKey : null}] *)
Definition onClickKey : option Action :=
  if isCollapsable (value props) then Some (ClickKey (paths props)) else None.

(** [(paths.length - 1) * 1.3] and [paths.length * 1.3], in units of 1.3. *)
Definition indentStyles : Z := (Z.of_nat (length (paths props)) - 1)%Z.
Definition nextIndentStyles : Z := Z.of_nat (length (paths props)).

(** The row an array or an object pushes when [label !== undefined]. *)
Definition keyRow : list Element :=
  match label props with
  | Some l =>
      [ETr (TrNode (concat (paths props)) rowClasses indentStyles onClickKey
              (Some l) (getValue (value props) collapsed))]
  | None => []
  end.

(** The row of every other value; the label is shown when
    [paths.length > 0]. *)
Definition valueRow : Element :=
  ETr (TrNode (concat (paths props)) rowClasses indentStyles onClickKey
         (if 0 <? length (paths props) then label props else None)
         (getValue (value props) collapsed)).

Definition arrayChild (items : list JSValue) (key : nat) : Element :=
  let newPaths := paths props ++ [lit "[" ++ nat_toString key ++ lit "]"] in
  EJSONViewerObj
    {| hide := hide props || collapsed;
       label := Some (LIndex key);
       value := Array_get items key;
       paths := newPaths |}.

Definition objectChild (entries : list (jsstring * JSValue)) (key : jsstring)
  : Element :=
  let newPaths := paths props ++ [lit "." ++ key] in
  EJSONViewerObj
    {| hide := hide props || collapsed;
       label := Some (LKey key);
       value := Object_get entries key;
       paths := newPaths |}.

(** [page >= 0 ? PAGE_SIZE * (page + 1) : Infinity] *)
Definition maxItem : option nat :=
  if 0 <=? page state then Some (PAGE_SIZE * (page state + 1)) else None.

(** The row of key ["next"], pushed when [value.length > maxItem]. *)
Definition nextRow (items : list JSValue) : list Element :=
  if gt_maxItem (length items) maxItem then
    let maxItem := default 0 maxItem in
    let nextBatch := Nat.min (length items - maxItem) PAGE_SIZE in
    [ETr (TrNext nextIndentStyles maxItem (length items - 1)
            (NextPage (paths props))
            (lit "Show " ++
             (if decide (nextBatch = PAGE_SIZE)
              then nat_toString nextBatch ++ lit " More"
              else lit "Remaining")))]
  else [].

Definition render : list Element :=
  match value props with
  | VArray items =>
      keyRow ++
      (if negb collapsed || hasBeenExpanded state then
         map (arrayChild items) (array_loop (length items) 0 maxItem)
         ++ nextRow items
       else [])
  | VObject entries =>
      keyRow ++
      (if negb collapsed || hasBeenExpanded state then
         map (objectChild entries) (Object_keys entries)
       else [])
  | _ => [valueRow]
  end.

End Render.

(** ** JSONViewer *)

(** The [rows] of [JSONViewer.render]: the root [JSONViewerObj] element, or
    the fallback row when the [try] block throws. *)
Definition root (value : JSValue) : Element :=
  EJSONViewerObj
    {| value := value; paths := []; label := None; hide := false |}.

(** [Buffer_toString] is [body.toString()]; [JSON_parse] is [JSON.parse],
    which returns a value or throws ([None]). *)
Definition JSONViewer_rows (Buffer_toString : list N → jsstring)
    (JSON_parse : jsstring → option JSValue) (body : list N) : Element :=
  match JSON_parse (Buffer_toString body) with
  | Some value => root value
  | None => ETr (TrError (lit "Uh Oh!"))
  end.

(** ** Component state and rendering of the tree *)

(** React keeps one [State2] per mounted instance, set by the constructor
    when the instance is mounted and changed by [setState] only. An instance
    is identified by its [paths], which differ between any two children of
    one parent ([render_children_paths_NoDup] below; their React keys are
    taken to differ from the key of the row of the parent). An instance,
    once mounted, stays mounted ([instances_dispatch] below), so its state is
    the constructor's until one of its handlers runs: the store holds the
    states that handlers have set. *)
Definition getState (store : gmap (list jsstring) State2)
    (paths : list jsstring) : State2 :=
  default (constructor paths) (store !! paths).

(** [setState] in the handler of the instance that [action] names. *)
Definition dispatch (store : gmap (list jsstring) State2) (action : Action)
  : gmap (list jsstring) State2 :=
  match action with
  | ClickKey paths => <[paths := handleClickKey (getState store paths)]> store
  | NextPage paths => <[paths := handleNextPage (getState store paths)]> store
  end.

Definition run (store : gmap (list jsstring) State2) (actions : list Action)
  : gmap (list jsstring) State2 :=
  foldl dispatch store actions.

(** The nesting depth of a value bounds the depth of the component tree. *)
Fixpoint height (v : JSValue) : nat :=
  match v with
  | VArray items => S (foldr (fun x h => Nat.max (height x) h) 0 items)
  | VObject entries =>
      S (foldr (fun kv h => Nat.max (height kv.2) h) 0 entries)
  | _ => 0
  end.

Definition Element_height (e : Element) : nat :=
  match e with
  | ETr _ => 0
  | EJSONViewerObj props => S (height (value props))
  end.

(** React renders every child component in turn: [visit] collects, in
    document order, what [onTr] gives for the rows and what [onObj] gives
    for the instances, down to [depth] levels of components. *)
Fixpoint visit {A : Type} (onTr : Tr -> list A) (onObj : Props2 -> list A)
    (depth : nat) (store : gmap (list jsstring) State2) (e : Element)
  : list A :=
  match e with
  | ETr tr => onTr tr
  | EJSONViewerObj props =>
      match depth with
      | 0 => []
      | S d =>
          onObj props ++
          flat_map (visit onTr onObj d store)
            (render props (getState store (paths props)))
      end
  end.

(** The rows of the table body, in order. *)
Definition rows (store : gmap (list jsstring) State2) (e : Element)
  : list Tr :=
  visit (fun tr => [tr]) (fun _ => []) (Element_height e) store e.

(** The mounted instances, in order. *)
Definition instances (store : gmap (list jsstring) State2) (e : Element)
  : list Props2 :=
  visit (fun _ => []) (fun props => [props]) (Element_height e) store e.

(** The handlers registered on a row. *)
Definition Tr_onClick (tr : Tr) : option Action :=
  match tr with
  | TrNode _ _ _ onClick _ _ => onClick
  | TrNext _ _ _ onClick _ => Some onClick
  | TrError _ => None
  end.

(** Whether a row carries the class [hide]. *)
Definition Tr_hide (tr : Tr) : bool :=
  match tr with
  | TrNode _ classes _ _ _ _ => cls_hide classes
  | TrNext _ _ _ _ _ => false
  | TrError _ => false
  end.

Definition is_TrNode (tr : Tr) : bool :=
  match tr with TrNode _ _ _ _ _ _ => true | _ => false end.

Definition is_TrNext (tr : Tr) : bool :=
  match tr with TrNext _ _ _ _ _ => true | _ => false end.

(** The rows and the child components among the elements of one [render]. *)
Definition trs (es : list Element) : list Tr :=
  omap (fun e => match e with ETr tr => Some tr | _ => None end) es.

Definition children (es : list Element) : list Props2 :=
  omap (fun e => match e with EJSONViewerObj p => Some p | _ => None end) es.

(** An instance pushes a row of its own unless it is an array or an object
    without label. *)
Definition is_collection (v : JSValue) : bool :=
  match v with VArray _ | VObject _ => true | _ => false end.

Definition has_own_row (props : Props2) : bool :=
  match label props with
  | Some _ => true
  | None => negb (is_collection (value props))
  end.

Definition count_nodes (l : list Tr) : nat :=
  length (filter (λ tr, is_TrNode tr = true) l).

(** A row, an instance and an element with [hide] set. The row of key
    ["next"] has no class to set. *)
Definition hidden_row (tr : Tr) : Tr :=
  match tr with
  | TrNode key classes indent onClick keyLabel cell =>
      TrNode key
        {| cls_hide := true;
           cls_collapsable := cls_collapsable classes;
           cls_collapsed := cls_collapsed classes |}
        indent onClick keyLabel cell
  | _ => tr
  end.

Definition hidden_props (props : Props2) : Props2 :=
  {| hide := true;
     label := label props;
     value := value props;
     paths := paths props |}.

Definition hidden (e : Element) : Element :=
  match e with
  | ETr tr => ETr (hidden_row tr)
  | EJSONViewerObj props => EJSONViewerObj (hidden_props props)
  end.

(** What an array or an object renders after its own row. *)
Definition below (props : Props2) (state : State2) : list Element :=
  match value props with
  | VArray items =>
      map (arrayChild props state items)
        (array_loop (length items) 0 (maxItem state))
      ++ nextRow props state items
  | VObject entries => map (objectChild props state entries) (Object_keys entries)
  | _ => []
  end.

(** ** JSONViewer: the width of the first column *)

Section MinWidth.

(** A width is a number; [gt] is [>] on numbers and [falsy] tells the
    numbers that [!] takes to [true]. *)
Context {Width : Type} (gt : Width → Width → bool) (falsy : Width → bool).

(** [setMinWidth]. [viewer] is [this.viewer], with the widths of its [td]
    elements in document order, the first one being what [querySelector]
    returns. The result is the new [this.largestWidth] and the width written
    to [td.style.minWidth], if any ([boxSizing] is set along with it). *)
Definition setMinWidth (viewer : option (list Width))
    (largestWidth : option Width) : option Width * option Width :=
  match viewer with
  | None => (largestWidth, None)
  | Some tds =>
      match head tds with
      | None => (largestWidth, None)
      | Some width =>
          if match largestWidth with
             | None => true
             | Some largest => falsy largest || gt width largest
             end
          then (Some width, Some width)
          else (largestWidth, None)
      end
  end.

(** [componentDidUpdate] of a [JSONViewerObj] calls [onExpand], which is
    [setMinWidth]: one call per update, each finding the document as
    [viewers] lists it. *)
Definition componentDidUpdate (largestWidth : option Width)
    (viewers : list (option (list Width))) : option Width :=
  foldl (λ largest viewer, (setMinWidth viewer largest).1) largestWidth
    viewers.

(** The widths that the calls measure. *)
Definition measured (viewers : list (option (list Width))) : list Width :=
  omap (λ viewer, viewer ≫= head) viewers.

End MinWidth.

(** ** React keys, indents and targets *)

Definition Label_key (l : Label) : jsstring :=
  match l with
  | LIndex key => nat_toString key
  | LKey key => key
  end.

(** The [key] of an element of [render]; the fallback row has none. *)
Definition Element_key (e : Element) : option jsstring :=
  match e with
  | ETr (TrNode key _ _ _ _ _) => Some key
  | ETr (TrNext _ _ _ _ _) => Some (lit "next")
  | ETr (TrError _) => None
  | EJSONViewerObj props => Label_key <$> label props
  end.

Definition Tr_indent (tr : Tr) : Z :=
  match tr with
  | TrNode _ _ indent _ _ _ => indent
  | TrNext indent _ _ _ _ => indent
  | TrError _ => 0
  end.

(** The instance whose handler an action runs. *)
Definition Action_paths (action : Action) : list jsstring :=
  match action with
  | ClickKey paths => paths
  | NextPage paths => paths
  end.

(** A value in which [undefined] does not occur, as [JSON.parse] returns. *)
Fixpoint is_json (v : JSValue) : bool :=
  match v with
  | VUndefined => false
  | VArray items => forallb is_json items
  | VObject entries => forallb (λ kv, is_json kv.2) entries
  | _ => true
  end.

(** The stores that clicks can reach: each action is a handler registered on
    a row of the table as the store before it renders it. *)
Inductive reachable (v : JSValue) : gmap (list jsstring) State2 → Prop :=
| reachable_init : reachable v ∅
| reachable_click store action :
    reachable v store →
    Some action ∈ map Tr_onClick (rows store (root v)) →
    reachable v (dispatch store action).

(** How many times an action occurs in a sequence. *)
Definition occurrences (action : Action) (actions : list Action) : nat :=
  length (filter (λ a, a = action) actions).

(** The segments that [render] appends to [paths] begin with "." or "[". *)
Definition path_segment (segment : jsstring) : Prop :=
  ∃ rest, segment = 46%N :: rest ∨ segment = 91%N :: rest.

(** The row of an instance that has a label and is collapsed. *)
Definition collapsed_row (c : Props2) : Tr :=
  TrNode (concat (paths c))
    {| cls_hide := hide c;
       cls_collapsable := isCollapsable (value c);
       cls_collapsed := true |}
    (Z.of_nat (length (paths c)) - 1) (onClickKey c) (label c)
    (getValue (value c) true).

(** ** Documents used as examples *)

Definition nulls (n : nat) : JSValue := VArray (replicate n VNull).

Definition at_root (value : JSValue) : Props2 :=
  {| value := value; paths := []; label := None; hide := false |}.

Definition under_a (value : JSValue) : Props2 :=
  {| value := value; paths := [lit ".a"]; label := Some (LKey (lit "a"));
     hide := false |}.

Definition mixed_keys : list (jsstring * JSValue) :=
  [(lit "b", VNull); (lit "10", VNull); (lit "a", VNull); (lit "2", VNull)].

Definition thirty_keys : list (jsstring * JSValue) :=
  map (λ n, (lit "k" ++ nat_toString n, VNull)) (seq 0 30).

(** [{"a": [null, ...]}] and [{"a": {"b": [null, ...]}}], 26 elements. *)
Definition doc_a : JSValue := VObject [(lit "a", nulls 26)].

Definition doc_ab : JSValue :=
  VObject [(lit "a", VObject [(lit "b", nulls 26)])].

(** * Properties *)

(** ** The order of [Object.keys] *)

Lemma insert_index_Permutation x l : insert_index x l ≡ₚ x :: l.
Proof.
  induction l as [|y l IH]; simpl; [done|].
  destruct (x.1 <=? y.1)%N; [done|].
  rewrite IH. apply Permutation_swap.
Qed.

Lemma sort_index_Permutation l : sort_index l ≡ₚ l.
Proof.
  induction l as [|x l IH]; simpl; [done|].
  unfold sort_index in *. simpl.
  by rewrite insert_index_Permutation, IH.
Qed.

Lemma index_keys_snd ks :
  map snd (index_keys ks) = filter (λ k, is_array_index k = true) ks.
Proof.
  induction ks as [|k ks IH]; simpl; [done|].
  rewrite filter_cons.
  destruct (array_index k) eqn:E; simpl.
  - rewrite decide_True; [by rewrite IH|].
    unfold is_array_index. by rewrite E.
  - rewrite decide_False; [done|].
    unfold is_array_index. by rewrite E.
Qed.

Lemma own_keys_Permutation ks : own_keys ks ≡ₚ ks.
Proof.
  unfold own_keys.
  rewrite (fmap_Permutation snd _ _ (sort_index_Permutation _)).
  change (snd <$> index_keys ks) with (map snd (index_keys ks)).
  rewrite index_keys_snd.
  transitivity (filter (λ k, is_array_index k = true) ks
                ++ filter (λ k, ¬ is_array_index k = true) ks);
    [|apply filter_app_complement].
  apply Permutation_app; [done|].
  rewrite (list_filter_iff _ (λ k, ¬ is_array_index k = true)); [done|].
  intros k. destruct (is_array_index k); naive_solver.
Qed.

Lemma own_keys_length ks : length (own_keys ks) = length ks.
Proof. by rewrite own_keys_Permutation. Qed.

Lemma own_keys_no_index ks :
  Forall (λ k, is_array_index k = false) ks → own_keys ks = ks.
Proof.
  intros H. unfold own_keys.
  assert (index_keys ks = []) as ->.
  { induction H as [|k ks Hk _ IH]; simpl; [done|].
    unfold is_array_index in Hk. by destruct (array_index k). }
  simpl. induction H as [|k ks Hk _ IH]; [done|].
  rewrite filter_cons, decide_True by done. by rewrite IH.
Qed.

Lemma Object_keys_length (entries : list (jsstring * JSValue)) :
  length (Object_keys entries) = length entries.
Proof. unfold Object_keys. by rewrite own_keys_length, length_map. Qed.

(** ** The loop over the elements of an array *)

Lemma array_loop_seq remaining key m :
  array_loop remaining key (Some m) = seq key (Nat.min remaining (m - key)).
Proof.
  revert key. induction remaining as [|r IH]; intros key; simpl; [done|].
  destruct (key <? m) eqn:E.
  - apply Nat.ltb_lt in E. rewrite IH.
    replace (m - key) with (S (m - S key)) by lia. done.
  - apply Nat.ltb_ge in E. by replace (m - key) with 0 by lia.
Qed.

Lemma maxItem_eq (state : State2) :
  maxItem state = Some (PAGE_SIZE * (page state + 1)).
Proof. unfold maxItem. by destruct (0 <=? page state) eqn:E. Qed.

Lemma array_loop_maxItem (items : list JSValue) (state : State2) :
  array_loop (length items) 0 (maxItem state)
  = seq 0 (Nat.min (length items) (PAGE_SIZE * (page state + 1))).
Proof. rewrite maxItem_eq, array_loop_seq. by rewrite Nat.sub_0_r. Qed.

(** ** isCollapsable *)

(** C8: a value is collapsable exactly when it is a string of more than 100
    code units, an array with at least one element or an object with at
    least one key; null, booleans, numbers, short strings and empty
    collections are not. *)
Theorem isCollapsable_iff (v : JSValue) :
  (isCollapsable v = true ↔
     (∃ s, v = VString s ∧ 100 < length s)
     ∨ (∃ items, v = VArray items ∧ 0 < length items)
     ∨ (∃ entries, v = VObject entries ∧ 0 < length entries))
  ∧ isCollapsable VNull = false
  ∧ (∀ b, isCollapsable (VBoolean b) = false)
  ∧ (∀ n, isCollapsable (VNumber n) = false)
  ∧ (∀ s, length s ≤ 100 → isCollapsable (VString s) = false)
  ∧ isCollapsable (VArray []) = false
  ∧ isCollapsable (VObject []) = false.
Proof.
  split; [|repeat split; try done].
  - destruct v as [|b|n|s|items|entries|]; unfold isCollapsable; simpl;
      unfold MAX_VALUE_LENGTH; rewrite ?Object_keys_length, ?Nat.ltb_lt.
    all: split; [intros H|intros [(?&?&?)|[(?&?&?)|(?&?&?)]]];
      simplify_eq; try done; eauto 6.
  - intros s Hs. unfold isCollapsable. simpl.
    apply Nat.ltb_ge. unfold MAX_VALUE_LENGTH. lia.
Qed.

(** ** Truncation of long strings *)

Lemma render_scalar (props : Props2) (state : State2) :
  (∀ items, value props ≠ VArray items) →
  (∀ entries, value props ≠ VObject entries) →
  render props state = [valueRow props state].
Proof.
  intros Ha Ho. unfold render.
  destruct (value props) as [| | | |items|entries|]; try done.
  - by destruct (Ha items).
  - by destruct (Ho entries).
Qed.

(** C2: the row of a string of more than 100 code units shows, while the
    node is collapsed, the first 45 code units, one ellipsis and the last 45
    code units, 91 in all, the head and the tail being a prefix and a suffix
    of the string; while the node is expanded it shows the whole string. *)
Theorem getValue_long_string (props : Props2) (state : State2) (s : jsstring) :
  value props = VString s →
  100 < length s →
  let head := take 45 s in
  let tail := drop (length s - 45) s in
  render props state = [valueRow props state]
  ∧ getValue (value props) (collapsed state)
    = Some (CellValue Tstring
              (if expanded state then s else head ++ ellipsis ++ tail))
  ∧ length head = 45 ∧ length ellipsis = 1 ∧ length tail = 45
  ∧ length (head ++ ellipsis ++ tail) = 91
  ∧ (∃ middle, s = head ++ middle ++ tail).
Proof.
  intros Hv Hlen head tail. subst head tail.
  split; [apply render_scalar; rewrite Hv; congruence|].
  split.
  - rewrite Hv. unfold getValue, collapsed. simpl toString.
    assert ((MAX_VALUE_LENGTH <? length s) = true) as ->
      by (apply Nat.ltb_lt; unfold MAX_VALUE_LENGTH; lia).
    destruct (expanded state); simpl negb; cbv iota beta; [done|].
    simpl andb. cbv iota. unfold slice_to, slice_from, MAX_VALUE_LENGTH.
    done.
  - rewrite !length_app, length_take, length_drop.
    change (length ellipsis) with 1.
    repeat split; try lia.
    exists (take (length s - 90) (drop 45 s)).
    rewrite <- (take_drop 45 s) at 1. f_equal.
    rewrite <- (take_drop (length s - 90) (drop 45 s)) at 1. f_equal.
    rewrite drop_drop. f_equal. lia.
Qed.

(** ** The children of an array and pagination *)

Lemma children_shown (state : State2) :
  expanded state = true ∨ hasBeenExpanded state = true →
  negb (collapsed state) || hasBeenExpanded state = true.
Proof.
  unfold collapsed. intros [-> | ->]; [done|].
  by destruct (negb (negb _)).
Qed.

Lemma nextRow_eq (props : Props2) (state : State2) (items : list JSValue) :
  let shown := PAGE_SIZE * (page state + 1) in
  nextRow props state items =
    if shown <? length items then
      [ETr (TrNext (Z.of_nat (length (paths props))) shown (length items - 1)
              (NextPage (paths props))
              (if decide (PAGE_SIZE ≤ length items - shown)
               then lit "Show 25 More" else lit "Show Remaining"))]
    else [].
Proof.
  unfold nextRow. rewrite maxItem_eq. cbv [gt_maxItem default from_option id].
  destruct (_ <? _); [|done].
  unfold nextIndentStyles. do 3 f_equal.
  destruct (decide (Nat.min _ _ = _)) as [E|E];
    destruct (decide (PAGE_SIZE ≤ _)) as [E'|E']; try lia; [|done].
  by rewrite E.
Qed.

Lemma render_array (props : Props2) (state : State2) (items : list JSValue) :
  value props = VArray items →
  expanded state = true ∨ hasBeenExpanded state = true →
  render props state =
    keyRow props state
    ++ map (arrayChild props state items)
         (seq 0 (Nat.min (length items) (PAGE_SIZE * (page state + 1))))
    ++ nextRow props state items.
Proof.
  intros Hv Hs. unfold render. rewrite Hv, (children_shown _ Hs).
  by rewrite array_loop_maxItem.
Qed.

(** The children pushed by the loop over an array, written out: the child
    at position [key] carries the [key]-th element of the array, the number
    [key] as its label and the path of its parent extended by "[key]". *)
Lemma map_arrayChild_take (props : Props2) (state : State2)
    (items : list JSValue) (n : nat) :
  n ≤ length items →
  map (arrayChild props state items) (seq 0 n)
  = imap (λ key element,
            EJSONViewerObj
              {| paths :=
                   paths props ++ [lit "[" ++ nat_toString key ++ lit "]"];
                 value := element;
                 label := Some (LIndex key);
                 hide := hide props || negb (expanded state) |})
      (take n items).
Proof.
  induction n as [|n IH]; intros Hn; [done|].
  destruct (lookup_lt_is_Some_2 items n) as [element He]; [lia|].
  rewrite seq_S, map_app, IH, (take_S_r _ _ _ He), imap_app by lia.
  rewrite length_take, Nat.min_l, Nat.add_0_l by lia.
  cbn [map imap]. unfold arrayChild, Array_get, collapsed.
  by rewrite He, Nat.add_0_r.
Qed.

(** C1: an array of 60 elements whose children are rendered shows, at page
    0, one child for each of the elements 0 to 24 and then one row of key
    "next" captioned "Show 25 More"; after one [handleNextPage], the
    elements 0 to 49 and then the row for 50 to 59 captioned "Show
    Remaining"; after a second one, all 60 elements and no such row. The
    child at position [key] has the label [key], the value [items !! key],
    the path of its parent extended by "[key]" and is hidden when its
    parent is hidden or collapsed. For every array and page the elements
    shown are those below min(length, 25 * (page + 1)), and
    [handleNextPage] reveals min(remaining, 25) more. *)
Theorem render_array_pagination (props : Props2) (state : State2)
    (items : list JSValue) :
  value props = VArray items →
  expanded state = true ∨ hasBeenExpanded state = true →
  let next := NextPage (paths props) in
  let indent := Z.of_nat (length (paths props)) in
  let state1 := handleNextPage state in
  let state2 := handleNextPage state1 in
  let cap := Nat.min (length items) (25 * (page state + 1)) in
  let child (st : State2) (key : nat) (element : JSValue) :=
    EJSONViewerObj
      {| paths := paths props ++ [lit "[" ++ nat_toString key ++ lit "]"];
         value := element;
         label := Some (LIndex key);
         hide := hide props || negb (expanded st) |} in
  (length items = 60 → page state = 0 →
     render props state =
       keyRow props state
       ++ imap (child state) (take 25 items)
       ++ [ETr (TrNext indent 25 59 next (lit "Show 25 More"))]
     ∧ render props state1 =
       keyRow props state1
       ++ imap (child state1) (take 50 items)
       ++ [ETr (TrNext indent 50 59 next (lit "Show Remaining"))]
     ∧ render props state2 =
       keyRow props state2
       ++ imap (child state2) items)
  ∧ render props state =
      keyRow props state
      ++ imap (child state) (take cap items)
      ++ nextRow props state items
  ∧ nextRow props state items =
      (if 25 * (page state + 1) <? length items then
         [ETr (TrNext indent (25 * (page state + 1)) (length items - 1) next
                 (if decide (25 ≤ length items - cap)
                  then lit "Show 25 More" else lit "Show Remaining"))]
       else [])
  ∧ (∀ key, key < cap →
       ∃ element,
         items !! key = Some element
         ∧ render props state !! (length (keyRow props state) + key)
           = Some (child state key element))
  ∧ (∀ key element,
       items !! key = Some element →
       arrayChild props state items key = child state key element)
  ∧ (∀ key, key < cap → items !! key = Some (Array_get items key))
  ∧ Nat.min (length items) (25 * (page state1 + 1)) - cap
    = Nat.min (length items - cap) 25.
Proof.
  intros Hv Hs next indent state1 state2 cap child.
  assert (expanded state1 = true ∨ hasBeenExpanded state1 = true) as Hs1
    by done.
  assert (expanded state2 = true ∨ hasBeenExpanded state2 = true) as Hs2
    by done.
  assert (render props state =
            keyRow props state
            ++ imap (child state) (take cap items)
            ++ nextRow props state items) as Hrender.
  { rewrite (render_array _ _ _ Hv Hs).
    by rewrite map_arrayChild_take by (unfold PAGE_SIZE; lia). }
  split; [intros Hlen Hp|split; [done|repeat split]].
  - rewrite (render_array _ _ _ Hv Hs), (render_array _ _ _ Hv Hs1),
      (render_array _ _ _ Hv Hs2), !nextRow_eq.
    rewrite !map_arrayChild_take by (unfold PAGE_SIZE; lia).
    subst state1 state2. cbn [page handleNextPage].
    rewrite Hp, Hlen.
    change (Nat.min 60 (PAGE_SIZE * (0 + 1))) with 25.
    change (Nat.min 60 (PAGE_SIZE * (0 + 1 + 1))) with 50.
    change (Nat.min 60 (PAGE_SIZE * (0 + 1 + 1 + 1))) with 60.
    rewrite (take_ge items 60) by lia.
    split; [done|split; [done|]].
    change (PAGE_SIZE * (0 + 1 + 1 + 1) <? 60) with false.
    cbv iota. by rewrite app_nil_r.
  - rewrite nextRow_eq. fold next indent. unfold PAGE_SIZE.
    destruct (_ <? _) eqn:E; [|done].
    apply Nat.ltb_lt in E. by replace cap with (25 * (page state + 1)) by lia.
  - intros key Hk.
    destruct (lookup_lt_is_Some_2 items key) as [element He]; [lia|].
    exists element. split; [done|].
    rewrite Hrender, lookup_app_r, lookup_app_l by
      first [lia | rewrite length_imap, length_take; lia].
    replace (length (keyRow props state) + key - length (keyRow props state))
      with key by lia.
    by rewrite list_lookup_imap, lookup_take_lt, He by lia.
  - intros key element He. unfold arrayChild, Array_get, collapsed, child.
    by rewrite He.
  - intros key Hk. unfold Array_get.
    destruct (items !! key) eqn:E; [done|].
    apply lookup_ge_None in E. lia.
  - subst state1 cap. simpl page. lia.
Qed.

(** ** The children of an object *)

Lemma render_object (props : Props2) (state : State2)
    (entries : list (jsstring * JSValue)) :
  value props = VObject entries →
  expanded state = true ∨ hasBeenExpanded state = true →
  render props state =
    keyRow props state
    ++ map (objectChild props state entries) (Object_keys entries).
Proof.
  intros Hv Hs. unfold render. by rewrite Hv, (children_shown _ Hs).
Qed.

Lemma trs_keyRow (props : Props2) (state : State2) :
  Forall (λ tr, is_TrNode tr = true) (trs (keyRow props state))
  ∧ children (keyRow props state) = [].
Proof. unfold keyRow. destruct (label props); simpl; auto. Qed.

Lemma trs_objectChild (props : Props2) (state : State2) entries ks :
  trs (map (objectChild props state entries) ks) = []
  ∧ children (map (objectChild props state entries) ks)
    = map (λ key, {| hide := hide props || collapsed state;
                     label := Some (LKey key);
                     value := Object_get entries key;
                     paths := paths props ++ [lit "." ++ key] |}) ks.
Proof. induction ks as [|k ks [IH1 IH2]]; simpl; [done|]. by rewrite IH2. Qed.

(** C10: an object whose children are rendered has one child per key,
    whatever the number of keys and whatever its page; and no object ever
    renders the row of key "next". *)
Theorem render_object_no_pagination (props : Props2) (state : State2)
    (entries : list (jsstring * JSValue)) :
  value props = VObject entries →
  (expanded state = true ∨ hasBeenExpanded state = true →
     render props state =
       keyRow props state
       ++ map (objectChild props state entries) (Object_keys entries)
     ∧ Object_keys entries ≡ₚ map fst entries
     ∧ length (children (render props state)) = length entries)
  ∧ Forall (λ tr, is_TrNext tr = false) (trs (render props state)).
Proof.
  intros Hv. split.
  - intros Hs. rewrite (render_object _ _ _ Hv Hs).
    split; [done|]. split; [apply own_keys_Permutation|].
    unfold children. rewrite omap_app. fold (children (keyRow props state)).
    rewrite (proj2 (trs_keyRow _ _)). simpl.
    fold (children (map (objectChild props state entries)
                      (Object_keys entries))).
    rewrite (proj2 (trs_objectChild _ _ _ _)).
    by rewrite length_map, Object_keys_length.
  - unfold render. rewrite Hv. unfold trs. rewrite omap_app.
    apply Forall_app. split.
    + eapply Forall_impl; [apply trs_keyRow|].
      intros [] ?; done.
    + destruct (_ || _); [|constructor].
      fold (trs (map (objectChild props state entries)
                   (Object_keys entries))).
      rewrite (proj1 (trs_objectChild _ _ _ _)). constructor.
Qed.

Lemma insert_index_sorted x l :
  StronglySorted (λ a b : N * jsstring, (a.1 ≤ b.1)%N) l →
  StronglySorted (λ a b : N * jsstring, (a.1 ≤ b.1)%N) (insert_index x l).
Proof.
  induction 1 as [|y l Hl IH Hy]; simpl.
  - repeat constructor.
  - destruct (x.1 <=? y.1)%N eqn:E.
    + apply N.leb_le in E. constructor; [by constructor|].
      constructor; [done|].
      eapply Forall_impl; [apply Hy|]. simpl. lia.
    + apply N.leb_gt in E. constructor; [done|].
      rewrite insert_index_Permutation. constructor; [lia|done].
Qed.

Lemma sort_index_sorted l :
  StronglySorted (λ a b : N * jsstring, (a.1 ≤ b.1)%N) (sort_index l).
Proof.
  induction l as [|x l IH]; [constructor|].
  by apply insert_index_sorted.
Qed.

Lemma index_keys_value ks :
  Forall (λ nk : N * jsstring, array_index nk.2 = Some nk.1) (index_keys ks).
Proof.
  induction ks as [|k ks IH]; simpl; [constructor|].
  destruct (array_index k) eqn:E; [|done]. by constructor.
Qed.

(** C4, as the code has it: the children of an object come in the order of
    [Object.keys]. The keys that are array indices (canonical decimal
    integers up to 2^32 - 2) come first, in ascending numeric order; every
    other key follows, in insertion order. When no key is an array index the
    children are in insertion order exactly. *)
Theorem render_object_key_order (props : Props2) (state : State2)
    (entries : list (jsstring * JSValue)) :
  value props = VObject entries →
  expanded state = true ∨ hasBeenExpanded state = true →
  let ks := map fst entries in
  (∃ numbered : list (N * jsstring),
     render props state =
       keyRow props state
       ++ map (objectChild props state entries)
            (map snd numbered ++ filter (λ k, is_array_index k = false) ks)
     ∧ StronglySorted (λ a b, (a.1 ≤ b.1)%N) numbered
     ∧ Forall (λ nk, array_index nk.2 = Some nk.1) numbered
     ∧ map snd numbered ≡ₚ filter (λ k, is_array_index k = true) ks)
  ∧ (Forall (λ k, is_array_index k = false) ks →
     render props state =
       keyRow props state ++ map (objectChild props state entries) ks).
Proof.
  intros Hv Hs ks. rewrite (render_object _ _ _ Hv Hs). split.
  - exists (sort_index (index_keys ks)). split; [done|].
    split; [apply sort_index_sorted|]. split.
    + rewrite sort_index_Permutation. apply index_keys_value.
    + rewrite <- index_keys_snd.
      apply (fmap_Permutation snd), sort_index_Permutation.
  - intros Hks. unfold Object_keys. fold ks. by rewrite own_keys_no_index.
Qed.

Example array_index_examples :
  array_index (lit "0") = Some 0%N
  ∧ array_index (lit "10") = Some 10%N
  ∧ array_index (lit "4294967294") = Some 4294967294%N
  ∧ array_index (lit "4294967295") = None
  ∧ array_index (lit "01") = None
  ∧ array_index (lit "-1") = None
  ∧ array_index (lit "1.5") = None
  ∧ array_index (lit "") = None
  ∧ array_index (lit "b") = None.
Proof. repeat split; reflexivity. Qed.

Example Object_keys_mixed_keys :
  Object_keys mixed_keys = [lit "2"; lit "10"; lit "b"; lit "a"].
Proof. reflexivity. Qed.

(** ** The handlers *)

Lemma getState_dispatch_eq store action paths :
  (action = ClickKey paths ∨ action = NextPage paths) →
  getState (dispatch store action) paths
  = match action with
    | ClickKey _ => handleClickKey (getState store paths)
    | NextPage _ => handleNextPage (getState store paths)
    end.
Proof.
  intros [-> | ->]; unfold getState at 1; simpl;
    by rewrite lookup_insert_eq.
Qed.

Lemma getState_dispatch_ne store action paths :
  action ≠ ClickKey paths → action ≠ NextPage paths →
  getState (dispatch store action) paths = getState store paths.
Proof.
  intros H1 H2. unfold getState at 1.
  destruct action as [p|p]; simpl;
    (rewrite lookup_insert_ne; [done|congruence]).
Qed.

Lemma hasBeenExpanded_dispatch store action paths :
  hasBeenExpanded (getState store paths) = true →
  hasBeenExpanded (getState (dispatch store action) paths) = true.
Proof.
  intros H.
  destruct (decide (action = ClickKey paths)) as [->|H1];
    [by rewrite getState_dispatch_eq by auto|].
  destruct (decide (action = NextPage paths)) as [->|H2];
    [by rewrite getState_dispatch_eq by auto|].
  by rewrite getState_dispatch_ne.
Qed.

Lemma page_dispatch store action paths :
  page (getState store paths) ≤ page (getState (dispatch store action) paths).
Proof.
  destruct (decide (action = ClickKey paths)) as [->|H1];
    [by rewrite getState_dispatch_eq by auto|].
  destruct (decide (action = NextPage paths)) as [->|H2];
    [rewrite getState_dispatch_eq by auto; simpl; lia|].
  by rewrite getState_dispatch_ne.
Qed.

Lemma render_onClick (props : Props2) (state : State2) (tr : Tr) :
  tr ∈ trs (render props state) →
  (is_TrNode tr = true ∧ Tr_onClick tr = onClickKey props)
  ∨ (is_TrNext tr = true ∧ Tr_onClick tr = Some (NextPage (paths props))
     ∧ isCollapsable (value props) = true).
Proof.
  unfold render, trs. intros H.
  assert (∀ tr, tr ∈ omap (λ e, match e with ETr t => Some t | _ => None end)
                  (keyRow props state) →
          is_TrNode tr = true ∧ Tr_onClick tr = onClickKey props) as Hkey.
  { unfold keyRow. intros t. destruct (label props); simpl; [|by inversion 1].
    intros ->%list_elem_of_singleton. done. }
  destruct (value props) as [| | | |items|entries|] eqn:Hv;
    try (apply list_elem_of_singleton in H as ->; left; done).
  - rewrite omap_app in H. apply elem_of_app in H as [H|H]; [left; auto|].
    destruct (_ || _); [|by inversion H].
    rewrite omap_app in H. apply elem_of_app in H as [H|H].
    + exfalso. induction (array_loop _ _ _); simpl in H; [inversion H|auto].
    + unfold nextRow in H.
      destruct (gt_maxItem _ _) eqn:E; [|by inversion H].
      apply list_elem_of_singleton in H as ->. right.
      repeat split. unfold isCollapsable. simpl.
      rewrite maxItem_eq in E. simpl in E.
      apply Nat.ltb_lt in E. apply Nat.ltb_lt. lia.
  - rewrite omap_app in H. apply elem_of_app in H as [H|H]; [left; auto|].
    destruct (_ || _); [|by inversion H].
    exfalso. induction (Object_keys _); simpl in H; [inversion H|auto].
Qed.

(** C6: the toggle handler flips [expanded] and sets [hasBeenExpanded];
    once [hasBeenExpanded] is true for an instance it stays true whatever
    handlers run afterwards; and a row of a node registers the toggle
    handler exactly when the node is collapsable: the rows of the other
    nodes register nothing, and the row of key "next" registers only
    [handleNextPage]. *)
Theorem toggle_registration :
  (∀ store paths,
     let before := getState store paths in
     let after := getState (dispatch store (ClickKey paths)) paths in
     expanded after = negb (expanded before)
     ∧ hasBeenExpanded after = true
     ∧ page after = page before)
  ∧ (∀ store actions paths,
       hasBeenExpanded (getState store paths) = true →
       hasBeenExpanded (getState (run store actions) paths) = true)
  ∧ (∀ props state tr,
       tr ∈ trs (render props state) →
       is_TrNode tr = true →
       Tr_onClick tr =
         if isCollapsable (value props) then Some (ClickKey (paths props))
         else None)
  ∧ (∀ props state tr target,
       tr ∈ trs (render props state) →
       Tr_onClick tr = Some (ClickKey target) →
       isCollapsable (value props) = true ∧ target = paths props)
  ∧ (∀ props state tr,
       isCollapsable (value props) = false →
       tr ∈ trs (render props state) →
       Tr_onClick tr = None).
Proof.
  repeat split.
  - by rewrite getState_dispatch_eq by auto.
  - by rewrite getState_dispatch_eq by auto.
  - by rewrite getState_dispatch_eq by auto.
  - intros store actions paths. revert store.
    induction actions as [|a actions IH]; intros store H; [done|].
    simpl. apply IH. by apply hasBeenExpanded_dispatch.
  - intros props state tr Hin Hnode.
    destruct (render_onClick _ _ _ Hin) as [[_ ->]|[Hnext _]]; [done|].
    by destruct tr.
  - destruct (render_onClick _ _ _ H) as [[_ E]|(_ & E & _)];
      rewrite E in H0; [|done].
    unfold onClickKey in H0. by destruct (isCollapsable _).
  - destruct (render_onClick _ _ _ H) as [[_ E]|(_ & E & _)];
      rewrite E in H0; [|done].
    unfold onClickKey in H0. destruct (isCollapsable _); congruence.
  - intros props state tr Hc Hin.
    destruct (render_onClick _ _ _ Hin) as [[_ ->]|(_ & _ & E)];
      [|congruence].
    unfold onClickKey. by rewrite Hc.
Qed.

(** C9: [page] is 0 when an instance is constructed; [handleNextPage] adds
    exactly 1 to it and changes neither [expanded] nor [hasBeenExpanded] of
    the instance, nor the state of any other instance; the toggle handler
    leaves every [page] as it is; so [page] never decreases. *)
Theorem page_monotone :
  (∀ paths, page (constructor paths) = 0)
  ∧ (∀ paths, page (getState ∅ paths) = 0)
  ∧ (∀ store paths,
       let before := getState store paths in
       let after := getState (dispatch store (NextPage paths)) paths in
       page after = page before + 1
       ∧ expanded after = expanded before
       ∧ hasBeenExpanded after = hasBeenExpanded before)
  ∧ (∀ store paths other,
       other ≠ paths →
       getState (dispatch store (NextPage paths)) other
       = getState store other)
  ∧ (∀ store target paths,
       page (getState (dispatch store (ClickKey target)) paths)
       = page (getState store paths))
  ∧ (∀ store actions paths,
       page (getState store paths)
       ≤ page (getState (run store actions) paths)).
Proof.
  repeat split.
  - by rewrite getState_dispatch_eq by auto.
  - by rewrite getState_dispatch_eq by auto.
  - by rewrite getState_dispatch_eq by auto.
  - intros store paths other Hne.
    apply getState_dispatch_ne; congruence.
  - intros store target paths.
    destruct (decide (target = paths)) as [->|Hne].
    + by rewrite getState_dispatch_eq by auto.
    + by rewrite getState_dispatch_ne by congruence.
  - intros store actions paths. revert store.
    induction actions as [|a actions IH]; intros store; [done|].
    simpl. etrans; [apply (page_dispatch store a)|apply IH].
Qed.

(** ** Rendering of the tree *)

Lemma height_Array_get (items : list JSValue) (key : nat) :
  height (Array_get items key)
  ≤ foldr (λ x h, Nat.max (height x) h) 0 items.
Proof.
  unfold Array_get. revert key.
  induction items as [|x items IH]; intros [|key]; simpl; try lia.
  specialize (IH key). lia.
Qed.

Lemma height_Object_get (entries : list (jsstring * JSValue)) key :
  height (Object_get entries key)
  ≤ foldr (λ kv h, Nat.max (height kv.2) h) 0 entries.
Proof.
  induction entries as [|[k v] entries IH]; simpl; [lia|].
  destruct (decide (k = key)); lia.
Qed.

Lemma render_child_height (props : Props2) (state : State2) (e : Element) :
  e ∈ render props state →
  Element_height e ≤ height (value props).
Proof.
  unfold render, keyRow, nextRow.
  destruct (value props) as [| | | |items|entries|];
    try (intros ->%list_elem_of_singleton; simpl; lia).
  - intros [H|H]%elem_of_app.
    { destruct (label props); [|by inversion H].
      apply list_elem_of_singleton in H as ->. simpl. lia. }
    destruct (_ || _); [|by inversion H].
    apply elem_of_app in H as [H|H].
    + apply list_elem_of_fmap in H as (key & -> & _). simpl.
      pose proof (height_Array_get items key). lia.
    + destruct (gt_maxItem _ _); [|by inversion H].
      apply list_elem_of_singleton in H as ->. simpl. lia.
  - intros [H|H]%elem_of_app.
    { destruct (label props); [|by inversion H].
      apply list_elem_of_singleton in H as ->. simpl. lia. }
    destruct (_ || _); [|by inversion H].
    apply list_elem_of_fmap in H as (key & -> & _). simpl.
    pose proof (height_Object_get entries key). lia.
Qed.

Lemma flat_map_ext_elem {A B : Type} (f g : A → list B) (l : list A) :
  (∀ x, x ∈ l → f x = g x) → flat_map f l = flat_map g l.
Proof.
  induction l as [|x l IH]; intros H; simpl; [done|].
  rewrite H by constructor. f_equal. apply IH.
  intros y Hy. apply H. by constructor.
Qed.

Section Visit.

Context {A : Type} (onTr : Tr → list A) (onObj : Props2 → list A).
Variable store : gmap (list jsstring) State2.

Lemma visit_depth (d1 d2 : nat) (e : Element) :
  Element_height e ≤ d1 → Element_height e ≤ d2 →
  visit onTr onObj d1 store e = visit onTr onObj d2 store e.
Proof.
  revert d2 e. induction d1 as [|d1 IH]; intros d2 [tr|props]; simpl;
    try done; try lia.
  - by destruct d2.
  - by destruct d2.
  - destruct d2 as [|d2]; [lia|]. intros H1 H2. simpl. f_equal.
    apply flat_map_ext_elem. intros e He.
    pose proof (render_child_height _ _ _ He).
    apply IH; lia.
Qed.

Lemma visit_unfold (props : Props2) :
  visit onTr onObj (S (height (value props))) store (EJSONViewerObj props)
  = onObj props
    ++ flat_map (λ e, visit onTr onObj (Element_height e) store e)
         (render props (getState store (paths props))).
Proof.
  simpl. f_equal. apply flat_map_ext_elem. intros e He.
  pose proof (render_child_height _ _ _ He).
  by apply visit_depth.
Qed.

End Visit.

(** React's recursion: the rows of an instance are the rows of the elements
    its [render] returns, in order. *)
Lemma rows_unfold store (props : Props2) :
  rows store (EJSONViewerObj props)
  = flat_map (rows store) (render props (getState store (paths props))).
Proof. unfold rows. simpl Element_height. by rewrite visit_unfold. Qed.

Lemma rows_ETr store (tr : Tr) : rows store (ETr tr) = [tr].
Proof. done. Qed.

Lemma instances_unfold store (props : Props2) :
  instances store (EJSONViewerObj props)
  = props
    :: flat_map (instances store)
         (render props (getState store (paths props))).
Proof. unfold instances. simpl Element_height. by rewrite visit_unfold. Qed.

Lemma instances_ETr store (tr : Tr) : instances store (ETr tr) = [].
Proof. done. Qed.

(** Induction over the tree of mounted instances. *)
Lemma Element_height_ind (P : Element → Prop) :
  (∀ tr, P (ETr tr)) →
  (∀ props,
     (∀ state e, e ∈ render props state → P e) → P (EJSONViewerObj props)) →
  ∀ e, P e.
Proof.
  intros Htr Hobj e.
  remember (Element_height e) as n eqn:Hn.
  assert (Element_height e ≤ n) as Hle by lia. clear Hn.
  revert e Hle. induction n as [|n IH]; intros [tr|props] Hle; auto.
  - simpl in Hle. lia.
  - apply Hobj. intros state e He. apply IH.
    pose proof (render_child_height _ _ _ He). simpl in Hle. lia.
Qed.

Lemma elem_of_trs (es : list Element) (tr : Tr) : tr ∈ trs es ↔ ETr tr ∈ es.
Proof.
  unfold trs. rewrite list_elem_of_omap. split.
  - intros ([t|p] & H & E); by simplify_eq.
  - intros H. by exists (ETr tr).
Qed.

Lemma elem_of_children (es : list Element) (p : Props2) :
  p ∈ children es ↔ EJSONViewerObj p ∈ es.
Proof.
  unfold children. rewrite list_elem_of_omap. split.
  - intros ([t|q] & H & E); by simplify_eq.
  - intros H. by exists (EJSONViewerObj p).
Qed.

Lemma Forall_flat_map {A B : Type} (P : B → Prop) (f : A → list B) l :
  (∀ x, x ∈ l → Forall P (f x)) → Forall P (flat_map f l).
Proof.
  induction l as [|x l IH]; intros H; simpl; [constructor|].
  apply Forall_app. split; [apply H; constructor|].
  apply IH. intros y Hy. apply H. by constructor.
Qed.

Lemma rows_no_error store (e : Element) :
  (∀ text, e ≠ ETr (TrError text)) →
  Forall (λ tr, ∀ text, tr ≠ TrError text) (rows store e).
Proof.
  induction e as [tr|props IH] using Element_height_ind; intros He.
  - rewrite rows_ETr. constructor; [|constructor].
    intros text ->. by destruct (He text).
  - rewrite rows_unfold. apply Forall_flat_map. intros e Hin.
    apply (IH _ _ Hin). intros text ->.
    apply elem_of_trs, render_onClick in Hin.
    by destruct Hin as [[? _]|(? & _)].
Qed.

(** C7: when the body does not parse, the rows are the one fallback row
    "Uh Oh!" and no [JSONViewerObj] is mounted; [JSONViewer_rows] returns in
    both cases; when the body parses, the rows are those of the root
    [JSONViewerObj] and the fallback row is not among them. *)
Theorem JSONViewer_fallback (Buffer_toString : list N → jsstring)
    (JSON_parse : jsstring → option JSValue) (body : list N) store :
  let element := JSONViewer_rows Buffer_toString JSON_parse body in
  (JSON_parse (Buffer_toString body) = None →
     element = ETr (TrError (lit "Uh Oh!"))
     ∧ rows store element = [TrError (lit "Uh Oh!")]
     ∧ instances store element = [])
  ∧ (∀ value,
       JSON_parse (Buffer_toString body) = Some value →
       element = root value
       ∧ Forall (λ tr, ∀ text, tr ≠ TrError text) (rows store element)).
Proof.
  unfold JSONViewer_rows. split.
  - by intros ->.
  - intros value ->. split; [done|]. by apply rows_no_error.
Qed.

(** ** One row per instance *)

Lemma render_child (props : Props2) (state : State2) (c : Props2) :
  EJSONViewerObj c ∈ render props state →
  (∃ l, label c = Some l)
  ∧ hide c = hide props || collapsed state
  ∧ (∃ segment, paths c = paths props ++ [segment])
  ∧ (expanded state = true ∨ hasBeenExpanded state = true).
Proof.
  assert (negb (collapsed state) || hasBeenExpanded state = true →
          expanded state = true ∨ hasBeenExpanded state = true) as Hs.
  { unfold collapsed. destruct (expanded state); simpl; auto. }
  unfold render, keyRow, nextRow.
  destruct (value props) as [| | | |items|entries|];
    try (by intros ?%list_elem_of_singleton).
  - intros [H|H]%elem_of_app.
    { destruct (label props); [|by inversion H].
      by apply list_elem_of_singleton in H. }
    destruct (_ || _) eqn:E; [|by inversion H].
    apply elem_of_app in H as [H|H].
    + apply list_elem_of_fmap in H as (key & [= ->] & _). simpl.
      split; [eauto|]. split; [done|]. split; [eauto|]. by apply Hs.
    + destruct (gt_maxItem _ _); [|by inversion H].
      by apply list_elem_of_singleton in H.
  - intros [H|H]%elem_of_app.
    { destruct (label props); [|by inversion H].
      by apply list_elem_of_singleton in H. }
    destruct (_ || _) eqn:E; [|by inversion H].
    apply list_elem_of_fmap in H as (key & [= ->] & _). simpl.
      split; [eauto|]. split; [done|]. split; [eauto|]. by apply Hs.
Qed.

Lemma trs_app (es1 es2 : list Element) : trs (es1 ++ es2) = trs es1 ++ trs es2.
Proof. apply omap_app. Qed.

Lemma trs_arrayChild (props : Props2) (state : State2) items ks :
  trs (map (arrayChild props state items) ks) = [].
Proof. by induction ks. Qed.

Lemma count_nodes_app l1 l2 :
  count_nodes (l1 ++ l2) = count_nodes l1 + count_nodes l2.
Proof. unfold count_nodes. by rewrite filter_app, length_app. Qed.

Lemma count_nodes_keyRow (props : Props2) (state : State2) :
  count_nodes (trs (keyRow props state))
  = match label props with Some _ => 1 | None => 0 end.
Proof. unfold keyRow. by destruct (label props). Qed.

Lemma count_nodes_nextRow (props : Props2) (state : State2) items :
  count_nodes (trs (nextRow props state items)) = 0.
Proof. unfold nextRow. by destruct (gt_maxItem _ _). Qed.

Lemma render_own_rows (props : Props2) (state : State2) :
  count_nodes (trs (render props state)) = if has_own_row props then 1 else 0.
Proof.
  unfold render, has_own_row.
  destruct (value props) as [| | | |items|entries|];
    try (by destruct (label props)).
  - rewrite trs_app, count_nodes_app, count_nodes_keyRow.
    destruct (_ || _).
    + rewrite trs_app, count_nodes_app, trs_arrayChild, count_nodes_nextRow.
      by destruct (label props).
    + by destruct (label props).
  - rewrite trs_app, count_nodes_app, count_nodes_keyRow.
    destruct (_ || _).
    + rewrite (proj1 (trs_objectChild _ _ _ _)). by destruct (label props).
    + by destruct (label props).
Qed.

Lemma rows_count store (props : Props2) :
  count_nodes (rows store (EJSONViewerObj props))
  = length (filter (λ p, has_own_row p = true)
              (instances store (EJSONViewerObj props))).
Proof.
  set (P := λ e, match e with
                 | ETr _ => True
                 | EJSONViewerObj q =>
                     count_nodes (rows store e)
                     = length (filter (λ p, has_own_row p = true)
                                 (instances store e))
                 end).
  change (P (EJSONViewerObj props)).
  induction (EJSONViewerObj props) as [tr|q IH] using Element_height_ind;
    [done|].
  unfold P. rewrite rows_unfold, instances_unfold, filter_cons.
  specialize (IH (getState store (paths q))).
  pose proof (render_own_rows q (getState store (paths q))) as Hown.
  revert IH Hown. generalize (render q (getState store (paths q))).
  intros es IH Hown.
  assert (count_nodes (flat_map (rows store) es)
          = count_nodes (trs es)
            + length (filter (λ p, has_own_row p = true)
                        (flat_map (instances store) es))) as ->.
  { clear Hown. induction es as [|e es IHes]; [done|].
    simpl flat_map. rewrite filter_app, length_app, count_nodes_app.
    rewrite IHes by (intros e' He'; apply IH; by constructor).
    assert (P e) as He by (apply IH; constructor).
    destruct e as [tr|c].
    - rewrite rows_ETr, instances_ETr.
      change (trs (ETr tr :: es)) with ([tr] ++ trs es).
      rewrite count_nodes_app. simpl. lia.
    - unfold P in He. rewrite He.
      change (trs (EJSONViewerObj c :: es)) with (trs es). lia. }
  rewrite Hown. by destruct (has_own_row q).
Qed.

Lemma instances_below_own_row store (props : Props2) (state : State2) :
  Forall (λ p, has_own_row p = true)
    (flat_map (instances store) (render props state)).
Proof.
  apply Forall_flat_map. intros e He.
  assert (match e with
          | ETr _ => True
          | EJSONViewerObj c => has_own_row c = true
          end) as Hlabel.
  { destruct e as [|c]; [done|].
    apply render_child in He as ((l & Hl) & _). unfold has_own_row.
    by rewrite Hl. }
  clear He. revert Hlabel.
  induction e as [tr|c IH] using Element_height_ind; intros Hc.
  - rewrite instances_ETr. constructor.
  - rewrite instances_unfold. constructor; [done|].
    apply Forall_flat_map. intros e He. apply (IH _ _ He).
    destruct e as [|c']; [done|].
    apply render_child in He as ((l & Hl) & _). unfold has_own_row.
    by rewrite Hl.
Qed.

Lemma filter_Forall_id {A : Type} (P : A → Prop) `{∀ x, Decision (P x)} l :
  Forall P l → filter P l = l.
Proof.
  induction 1 as [|x l Hx _ IH]; [done|].
  by rewrite filter_cons_True, IH.
Qed.

Lemma rows_root_scalar store (v : JSValue) :
  is_collection v = false →
  rows store (root v) =
    [TrNode []
       {| cls_hide := false;
          cls_collapsable := isCollapsable v;
          cls_collapsed := collapsed (getState store []) |}
       (-1) (if isCollapsable v then Some (ClickKey []) else None)
       None (getValue v (collapsed (getState store [])))].
Proof.
  intros Hv. unfold root. rewrite rows_unfold. simpl paths.
  rewrite render_scalar; [done|intros x E; simpl in E; by subst v..].
Qed.

Lemma render_empty (state : State2) paths (l : Label) hide :
  let row (abbr : string) :=
    ETr (TrNode (concat paths)
           {| cls_hide := hide;
              cls_collapsable := false;
              cls_collapsed := collapsed state |}
           (Z.of_nat (length paths) - 1) None (Some l)
           (Some (CellText (lit abbr)))) in
  render {| value := VArray []; paths := paths; label := Some l;
            hide := hide |} state = [row "[]"%string]
  ∧ render {| value := VObject []; paths := paths; label := Some l;
              hide := hide |} state = [row "{}"%string].
Proof.
  unfold render, keyRow, nextRow, rowClasses, onClickKey, indentStyles.
  simpl.
  split; destruct (collapsed state), (hasBeenExpanded state); reflexivity.
Qed.

(** C3, as the code has it: on every store, an unmodified one included,
    each mounted instance pushes exactly one row of its own, except an
    array or an object at the root, which has no label and pushes none; so
    the rows of nodes are one fewer than the instances when the root is a
    collection. The row of a root that is not a collection is never hidden.
    Under a label, [[]] and [{}] render as one row, without handler and
    without children; at the root they render as no row at all. *)
Theorem rows_per_instance store (v : JSValue) :
  count_nodes (rows store (root v)) + (if is_collection v then 1 else 0)
  = length (instances store (root v))
  ∧ (∀ props state,
       count_nodes (trs (render props state))
       = if has_own_row props then 1 else 0)
  ∧ (is_collection v = false →
     ∃ tr, rows store (root v) = [tr]
           ∧ is_TrNode tr = true ∧ Tr_hide tr = false)
  ∧ (∀ state paths l hide,
       let empty_row (abbr : string) :=
         TrNode (concat paths)
           {| cls_hide := hide;
              cls_collapsable := false;
              cls_collapsed := collapsed state |}
           (Z.of_nat (length paths) - 1) None (Some l)
           (Some (CellText (lit abbr))) in
       render {| value := VArray []; paths := paths; label := Some l;
                 hide := hide |} state = [ETr (empty_row "[]"%string)]
       ∧ render {| value := VObject []; paths := paths; label := Some l;
                   hide := hide |} state = [ETr (empty_row "{}"%string)])
  ∧ rows store (root (VArray [])) = []
  ∧ rows store (root (VObject [])) = [].
Proof.
  split; [|split; [|split; [|split; [|split]]]].
  - unfold root.
    rewrite rows_count, instances_unfold, filter_cons.
    rewrite filter_Forall_id by apply instances_below_own_row.
    destruct (decide (has_own_row _ = true)) as [H|H];
      unfold has_own_row in H; simpl in H;
      destruct (is_collection v); simpl in *; try done; lia.
  - apply render_own_rows.
  - intros Hv. rewrite rows_root_scalar by done. eauto.
  - intros state paths l hide. apply render_empty.
  - unfold root. rewrite rows_unfold. unfold render, keyRow, nextRow.
    simpl. by destruct (_ || _).
  - unfold root. rewrite rows_unfold. unfold render, keyRow. simpl.
    by destruct (_ || _).
Qed.

(** ** Collapsing keeps the subtree *)

Lemma render_collection (props : Props2) (state : State2) :
  is_collection (value props) = true →
  render props state =
    keyRow props state
    ++ (if negb (collapsed state) || hasBeenExpanded state
        then below props state else []).
Proof. unfold render, below. by destruct (value props). Qed.

Lemma keyRow_hidden (props : Props2) (state : State2) :
  keyRow (hidden_props props) state = map hidden (keyRow props state).
Proof. unfold keyRow. cbn [label hidden_props]. by destruct (label props). Qed.

Lemma nextRow_hidden (props : Props2) (state : State2) items :
  nextRow (hidden_props props) state items
  = map hidden (nextRow props state items).
Proof. unfold nextRow. by destruct (gt_maxItem _ _). Qed.

Lemma render_hidden (props : Props2) (state : State2) :
  render (hidden_props props) state = map hidden (render props state).
Proof.
  unfold render. change (value (hidden_props props)) with (value props).
  destruct (value props) as [| | | |items|entries|]; try done.
  - rewrite map_app, keyRow_hidden. f_equal.
    destruct (_ || _); [|done].
    by rewrite map_app, map_map, nextRow_hidden.
  - rewrite map_app, keyRow_hidden. f_equal.
    destruct (_ || _); [|done].
    by rewrite map_map.
Qed.

Lemma flat_map_map {A B C : Type} (f : B → list C) (g : A → B) l :
  flat_map f (map g l) = flat_map (λ x, f (g x)) l.
Proof. induction l as [|x l IH]; simpl; [done|]. by rewrite IH. Qed.

Lemma map_flat_map {A B C : Type} (f : B → C) (g : A → list B) l :
  map f (flat_map g l) = flat_map (λ x, map f (g x)) l.
Proof.
  induction l as [|x l IH]; simpl; [done|]. by rewrite map_app, IH.
Qed.

(** Setting [hide] on an instance sets it on every row of a node below it
    and changes nothing else. *)
Lemma rows_hidden store (e : Element) :
  rows store (hidden e) = map hidden_row (rows store e).
Proof.
  induction e as [tr|props IH] using Element_height_ind; [done|].
  simpl hidden. rewrite !rows_unfold. simpl paths.
  rewrite render_hidden, flat_map_map, map_flat_map.
  apply flat_map_ext_elem. intros e He. by apply (IH _ _ He).
Qed.

(** The rows of an instance depend on the state of the instances at and
    below it only. *)
Lemma rows_store_agree store store' (props : Props2) :
  (∀ q, length (paths props) ≤ length q →
        getState store' q = getState store q) →
  rows store' (EJSONViewerObj props) = rows store (EJSONViewerObj props).
Proof.
  set (P := λ e, match e with
                 | ETr _ => True
                 | EJSONViewerObj p =>
                     (∀ q, length (paths p) ≤ length q →
                           getState store' q = getState store q) →
                     rows store' e = rows store e
                 end).
  change (P (EJSONViewerObj props)).
  induction (EJSONViewerObj props) as [tr|p IH] using Element_height_ind;
    [done|].
  intros Hagree. rewrite !rows_unfold, Hagree by done.
  apply flat_map_ext_elem. intros e He.
  specialize (IH _ _ He). destruct e as [tr|c]; [done|].
  apply IH. intros q Hq. apply Hagree.
  apply render_child in He as (_ & _ & (segment & Hc) & _).
  rewrite Hc, length_app in Hq. lia.
Qed.

Lemma below_collapsed (props : Props2) (state : State2) :
  expanded state = true →
  below props (handleClickKey state) = map hidden (below props state).
Proof.
  intros He. unfold below.
  assert (∀ items, nextRow props (handleClickKey state) items
                   = map hidden (nextRow props state items)) as Hnext.
  { intros items. unfold nextRow.
    change (maxItem (handleClickKey state)) with (maxItem state).
    by destruct (gt_maxItem _ _). }
  assert (collapsed (handleClickKey state) = true) as Hc
    by (unfold collapsed; cbn [expanded handleClickKey]; by rewrite He).
  destruct (value props) as [| | | |items|entries|]; try done.
  - rewrite map_app, map_map, Hnext.
    change (maxItem (handleClickKey state)) with (maxItem state).
    f_equal. apply map_ext. intros key.
    unfold arrayChild. by rewrite Hc, orb_true_r.
  - rewrite map_map. apply map_ext. intros key.
    unfold objectChild. by rewrite Hc, orb_true_r.
Qed.

Lemma below_child (props : Props2) (state : State2) (c : Props2) :
  EJSONViewerObj c ∈ below props state →
  ∃ segment, paths c = paths props ++ [segment].
Proof.
  unfold below, nextRow.
  destruct (value props) as [| | | |items|entries|]; try by inversion 1.
  - intros [H|H]%elem_of_app.
    + apply list_elem_of_fmap in H as (key & [= ->] & _). simpl. eauto.
    + destruct (gt_maxItem _ _); [|by inversion H].
      by apply list_elem_of_singleton in H.
  - intros H. apply list_elem_of_fmap in H as (key & [= ->] & _).
    simpl. eauto.
Qed.

(** X15: collapsing an expanded array or object keeps every row below its
    own: the rows of the nodes below become hidden, the rows of key ["next"]
    stay as they are, and the state of every other instance is untouched. *)
Lemma collapse_retains store (props : Props2) :
  let target := paths props in
  let state := getState store target in
  let store' := dispatch store (ClickKey target) in
  let state' := getState store' target in
  is_collection (value props) = true →
  expanded state = true →
  ∃ body,
    rows store (EJSONViewerObj props) = trs (keyRow props state) ++ body
    ∧ rows store' (EJSONViewerObj props)
      = trs (keyRow props state') ++ map hidden_row body
    ∧ (∀ q, q ≠ target → getState store' q = getState store q).
Proof.
  intros target state store' state' Hv He.
  assert (state' = handleClickKey state) as Hstate'
    by (unfold state', store'; by rewrite getState_dispatch_eq by auto).
  assert (∀ q, q ≠ target → getState store' q = getState store q) as Hframe
    by (intros q Hq; apply getState_dispatch_ne; congruence).
  assert (∀ es, flat_map (rows store) (keyRow props state ++ es)
                = trs (keyRow props state)
                  ++ flat_map (rows store) es) as Hkey.
  { intros es. unfold keyRow. by destruct (label props). }
  assert (∀ es, flat_map (rows store') (keyRow props state' ++ es)
                = trs (keyRow props state')
                  ++ flat_map (rows store') es) as Hkey'.
  { intros es. unfold keyRow. by destruct (label props). }
  exists (flat_map (rows store) (below props state)).
  split; [|split; [|done]].
  - rewrite rows_unfold. fold target state.
    rewrite render_collection by done. rewrite Hkey.
    unfold collapsed. by rewrite He.
  - rewrite rows_unfold. fold target state'.
    rewrite render_collection by done. rewrite Hkey'. f_equal.
    rewrite Hstate'. simpl hasBeenExpanded. rewrite orb_true_r.
    rewrite below_collapsed, flat_map_map, map_flat_map by done.
    apply flat_map_ext_elem. intros e Hin.
    rewrite <- rows_hidden.
    destruct e as [tr|c]; [done|]. cbn [hidden].
    apply rows_store_agree. cbn [paths hidden_props]. intros q Hq. apply Hframe.
      apply below_child in Hin as (segment & Hc). simpl in Hq.
      intros ->. rewrite Hc, length_app in Hq. simpl in Hq.
      unfold target in Hq. lia.
Qed.

(** ** Mounted instances stay mounted *)

Lemma elem_of_flat_map {A B : Type} (f : A → list B) (l : list A) (y : B) :
  y ∈ flat_map f l ↔ ∃ x, x ∈ l ∧ y ∈ f x.
Proof.
  induction l as [|x l IH]; simpl.
  - split; [by inversion 1|]. intros (x & Hx & _). by inversion Hx.
  - rewrite elem_of_app, IH. split.
    + intros [H|(x' & Hx' & H)]; [exists x|exists x']; split; try done;
        by constructor.
    + intros (x' & [->|Hx']%elem_of_cons & H); eauto.
Qed.

Lemma elem_of_array_loop (len page key : nat) :
  key ∈ array_loop len 0 (Some (PAGE_SIZE * (page + 1)))
  ↔ key < len ∧ key < PAGE_SIZE * (page + 1).
Proof. rewrite array_loop_seq, elem_of_seq. lia. Qed.

Lemma render_children_mono (p p' : Props2) (st st' : State2) (c : Props2) :
  paths p = paths p' → value p = value p' →
  (negb (collapsed st) || hasBeenExpanded st = true →
   negb (collapsed st') || hasBeenExpanded st' = true) →
  page st ≤ page st' →
  EJSONViewerObj c ∈ render p st →
  ∃ c', EJSONViewerObj c' ∈ render p' st'
        ∧ paths c' = paths c ∧ value c' = value c.
Proof.
  intros Hpaths Hvalue Hshown Hpage. unfold render, keyRow, nextRow.
  rewrite <- Hvalue.
  destruct (value p) as [| | | |items|entries|];
    try (by intros ?%list_elem_of_singleton).
  - intros [H|H]%elem_of_app.
    { destruct (label p); [|by inversion H].
      by apply list_elem_of_singleton in H. }
    destruct (negb (collapsed st) || hasBeenExpanded st); [|by inversion H].
    rewrite Hshown by done.
    apply elem_of_app in H as [H|H].
    + apply list_elem_of_fmap in H as (key & [= ->] & Hkey).
      exists {| hide := hide p' || collapsed st';
                label := Some (LIndex key);
                value := Array_get items key;
                paths := paths p' ++ [lit "[" ++ nat_toString key ++ lit "]"]
             |}.
      split; [|by rewrite Hpaths].
      apply elem_of_app. right. apply elem_of_app. left.
      apply list_elem_of_fmap. exists key. split; [done|].
      rewrite maxItem_eq in *. apply elem_of_array_loop in Hkey.
      apply elem_of_array_loop. unfold PAGE_SIZE in *. lia.
    + destruct (gt_maxItem _ _); [|by inversion H].
      by apply list_elem_of_singleton in H.
  - intros [H|H]%elem_of_app.
    { destruct (label p); [|by inversion H].
      by apply list_elem_of_singleton in H. }
    destruct (negb (collapsed st) || hasBeenExpanded st); [|by inversion H].
    rewrite Hshown by done.
    apply list_elem_of_fmap in H as (key & [= ->] & Hkey).
    exists {| hide := hide p' || collapsed st';
              label := Some (LKey key);
              value := Object_get entries key;
              paths := paths p' ++ [lit "." ++ key] |}.
    split; [|by rewrite Hpaths].
    apply elem_of_app. right.
    apply list_elem_of_fmap. by exists key.
Qed.

Lemma instances_mono store store' (props props' : Props2) :
  (∀ q, negb (collapsed (getState store q))
        || hasBeenExpanded (getState store q) = true →
        negb (collapsed (getState store' q))
        || hasBeenExpanded (getState store' q) = true) →
  (∀ q, page (getState store q) ≤ page (getState store' q)) →
  paths props = paths props' → value props = value props' →
  ∀ q, q ∈ map paths (instances store (EJSONViewerObj props)) →
       q ∈ map paths (instances store' (EJSONViewerObj props')).
Proof.
  intros Hshown Hpage.
  set (P := λ e, match e with
                 | ETr _ => True
                 | EJSONViewerObj p =>
                     ∀ p', paths p = paths p' → value p = value p' →
                     ∀ q, q ∈ map paths (instances store e) →
                          q ∈ map paths (instances store'
                                           (EJSONViewerObj p'))
                 end).
  revert props'. change (P (EJSONViewerObj props)).
  induction (EJSONViewerObj props) as [tr|p IH] using Element_height_ind;
    [done|].
  intros p' Hpaths Hvalue q. rewrite !instances_unfold. simpl map.
  intros [->|Hq]%elem_of_cons; [rewrite Hpaths; by left|]. right.
  apply list_elem_of_fmap in Hq as (i & -> & Hi).
  apply elem_of_flat_map in Hi as (e & He & Hi).
  destruct e as [tr|c]; [by inversion Hi|].
  destruct (render_children_mono p p' (getState store (paths p))
              (getState store' (paths p')) c) as (c' & Hc' & Hcp & Hcv);
    try done.
  { rewrite <- Hpaths. apply Hshown. }
  { rewrite <- Hpaths. apply Hpage. }
  specialize (IH _ _ He c' (eq_sym Hcp) (eq_sym Hcv) (paths i)).
  assert (paths i ∈ map paths (instances store' (EJSONViewerObj c'))) as Hi'
    by (apply IH, list_elem_of_fmap; eauto).
  apply list_elem_of_fmap in Hi' as (i' & Hii' & Hi').
  apply list_elem_of_fmap. exists i'. split; [done|].
  apply elem_of_flat_map. eauto.
Qed.

(** X16: no handler unmounts an instance: the instances mounted before an
    action are mounted after it, so each keeps the state React holds for
    it. *)
Lemma instances_dispatch store action (e : Element) :
  ∀ q, q ∈ map paths (instances store e) →
       q ∈ map paths (instances (dispatch store action) e).
Proof.
  destruct e as [tr|props]; [done|].
  apply instances_mono; try done.
  - intros q.
    destruct (decide (action = ClickKey q)) as [->|H1].
    { rewrite getState_dispatch_eq by auto. simpl. by rewrite orb_true_r. }
    destruct (decide (action = NextPage q)) as [->|H2].
    { by rewrite getState_dispatch_eq by auto. }
    by rewrite getState_dispatch_ne.
  - intros q. apply page_dispatch.
Qed.

(** ** The children of one instance have distinct [paths] *)

Lemma uint_units_inj d d' : uint_units d = uint_units d' → d = d'.
Proof.
  revert d'. induction d; intros []; simpl; intros H;
    try done; injection H as H; f_equal; auto.
Qed.

Lemma nat_toString_inj n n' : nat_toString n = nat_toString n' → n = n'.
Proof. intros H. by apply DecimalNat.Unsigned.to_uint_inj, uint_units_inj. Qed.

Lemma children_app (es1 es2 : list Element) :
  children (es1 ++ es2) = children es1 ++ children es2.
Proof. apply omap_app. Qed.

Lemma children_nextRow (props : Props2) (state : State2) items :
  children (nextRow props state items) = [].
Proof. unfold nextRow. by destruct (gt_maxItem _ _). Qed.

Lemma children_arrayChild (props : Props2) (state : State2) items ks :
  map paths (children (map (arrayChild props state items) ks))
  = map (λ key, paths props ++ [lit "[" ++ nat_toString key ++ lit "]"]) ks.
Proof. induction ks as [|k ks IH]; simpl; [done|]. f_equal. exact IH. Qed.

Lemma render_children_paths_NoDup (props : Props2) (state : State2) :
  (∀ entries, value props = VObject entries → NoDup (map fst entries)) →
  NoDup (map paths (children (render props state))).
Proof.
  intros Hkeys. unfold render.
  destruct (value props) as [| | | |items|entries|]; try constructor.
  - rewrite children_app, (proj2 (trs_keyRow _ _)). simpl.
    destruct (_ || _); [|constructor].
    rewrite children_app, children_nextRow, app_nil_r, children_arrayChild.
    rewrite array_loop_maxItem.
    apply NoDup_fmap_2_strong; [|apply NoDup_seq].
    intros k k' _ _ H. apply app_inv_head in H. injection H as H.
    apply app_inv_tail in H. by apply nat_toString_inj.
  - rewrite children_app, (proj2 (trs_keyRow _ _)). simpl.
    destruct (_ || _); [|constructor].
    rewrite (proj2 (trs_objectChild _ _ _ _)), map_map. simpl.
    apply NoDup_fmap_2_strong.
    + intros k k' _ _ H. apply app_inv_head in H. by injection H.
    + unfold Object_keys. rewrite own_keys_Permutation. by apply Hkeys.
Qed.

Lemma Tr_hide_hidden_row (tr : Tr) :
  Tr_hide (hidden_row tr) = is_TrNode tr.
Proof. by destruct tr. Qed.

(** ** The width of the first column never shrinks *)

Section MinWidth_facts.

Context {Width : Type} (gt : Width → Width → bool) (falsy : Width → bool).

Hypothesis gt_irrefl : ∀ a, gt a a = false.
Hypothesis gt_trans : ∀ a b c, gt a b = true → gt b c = true → gt a c = true.
Hypothesis gt_total : ∀ a b, gt a b = false → gt b a = false → a = b.

Lemma not_gt_trans a b c :
  gt a b = false → gt b c = false → gt a c = false.
Proof.
  intros Hab Hbc. destruct (gt a c) eqn:Hac; [|done].
  destruct (gt b a) eqn:Hba.
  - pose proof (gt_trans b a c Hba Hac). congruence.
  - rewrite (gt_total a b) in Hac by done. congruence.
Qed.

Lemma gt_asym a b : gt a b = true → gt b a = false.
Proof.
  intros Hab. destruct (gt b a) eqn:Hba; [|done].
  pose proof (gt_trans a b a Hab Hba) as H. by rewrite gt_irrefl in H.
Qed.

Lemma componentDidUpdate_max (largest0 : option Width) viewers :
  (∀ z w, falsy z = true → w ∈ measured viewers → gt z w = false) →
  match componentDidUpdate gt falsy largest0 viewers with
  | None => largest0 = None ∧ measured viewers = []
  | Some b =>
      (b ∈ measured viewers ∨ largest0 = Some b)
      ∧ (∀ w, w ∈ measured viewers → gt w b = false)
      ∧ (∀ a, largest0 = Some a → gt a b = false)
  end.
Proof.
  revert largest0. unfold componentDidUpdate, measured.
  induction viewers as [|viewer viewers IH]; intros largest0 Hpos.
  { simpl. destruct largest0 as [a|]; [|done].
    split; [by right|]. split; [by inversion 1|].
    intros ? [= <-]. apply gt_irrefl. }
  simpl foldl. simpl omap.
  destruct viewer as [[|width tds]|]; simpl.
  - apply IH, Hpos.
  - assert (∀ z w, falsy z = true →
              w ∈ omap (λ viewer, viewer ≫= head) viewers →
              gt z w = false) as Hpos'.
    { intros z w Hz Hw. apply Hpos; [done|]. simpl. by right. }
    assert (∀ z, falsy z = true → gt z width = false) as Hwidth.
    { intros z Hz. apply Hpos; [done|]. simpl. by left. }
    set (largest1 := (if match largest0 with
                         | Some largest => falsy largest || gt width largest
                         | None => true
                         end
                      then (Some width, Some width)
                      else (largest0, None)).1).
    specialize (IH largest1 Hpos').
    assert (largest1 = Some width
            ∧ (∀ a, largest0 = Some a → gt a width = false)
            ∨ largest1 = largest0
              ∧ ∃ a, largest0 = Some a ∧ gt width a = false) as Hstep.
    { unfold largest1. destruct largest0 as [a|]; [|left; done].
      destruct (falsy a) eqn:Hf; simpl.
      - left. split; [done|]. intros ? [= <-]. by apply Hwidth.
      - destruct (gt width a) eqn:Hg; simpl.
        + left. split; [done|]. intros ? [= <-]. by apply gt_asym.
        + right. eauto. }
    destruct (foldl _ largest1 viewers) as [b|] eqn:Hb.
    + destruct IH as (Hin & Hmax & Hge).
      destruct Hstep as [[E Hold]|[E (a & Ha & Hwa)]].
      * split; [|split].
        -- destruct Hin as [Hin|Hin]; [left; by right|].
           rewrite E in Hin. injection Hin as <-. left. by left.
        -- intros w [->|Hw]%elem_of_cons; [by apply Hge|by apply Hmax].
        -- intros a Ha. eapply not_gt_trans; [by apply Hold|by apply Hge].
      * split; [|split].
        -- destruct Hin as [Hin|Hin]; [left; by right|].
           right. by rewrite <- E.
        -- intros w [->|Hw]%elem_of_cons; [|by apply Hmax].
           eapply not_gt_trans; [done|]. apply Hge. by rewrite E.
        -- intros a' Ha'. apply Hge. by rewrite E.
    + destruct IH as [E _].
      destruct Hstep as [[E' _]|[E' (a & Ha & _)]]; congruence.
  - apply IH, Hpos.
Qed.

(** X1: [setMinWidth] does nothing without a viewer or without a cell, and
    what it writes to the style is the width it stores. When no measured
    width is below a width that [!] takes to [true] (widths are not
    negative), then after any number of updates [largestWidth] is a largest
    of the widths measured so far, so it never decreases from one update to
    the next. *)
Theorem largestWidth_is_maximum (viewers : list (option (list Width))) :
  (∀ z w, falsy z = true → w ∈ measured viewers → gt z w = false) →
  (∀ largest,
     setMinWidth gt falsy None largest = (largest, None)
     ∧ setMinWidth gt falsy (Some []) largest = (largest, None))
  ∧ (∀ viewer largest w,
       (setMinWidth gt falsy viewer largest).2 = Some w →
       (setMinWidth gt falsy viewer largest).1 = Some w
       ∧ (viewer ≫= head) = Some w)
  ∧ (measured viewers = [] → componentDidUpdate gt falsy None viewers = None)
  ∧ (measured viewers ≠ [] →
     ∃ largest,
       componentDidUpdate gt falsy None viewers = Some largest
       ∧ largest ∈ measured viewers
       ∧ ∀ w, w ∈ measured viewers → gt w largest = false)
  ∧ (∀ before after earlier,
       viewers = before ++ after →
       componentDidUpdate gt falsy None before = Some earlier →
       ∃ later,
         componentDidUpdate gt falsy None viewers = Some later
         ∧ gt earlier later = false).
Proof.
  intros Hpos. split; [done|]. split; [|split; [|split]].
  - intros [[|width tds]|] largest w; simpl; try done.
    destruct (match largest with Some _ => _ | None => _ end); simpl;
      [|done].
    by intros [= ->].
  - intros Hnil. pose proof (componentDidUpdate_max None viewers Hpos) as H.
    destruct (componentDidUpdate _ _ _ _) as [b|]; [|done].
    destruct H as ([H|H] & _); [|done]. rewrite Hnil in H. inversion H.
  - intros Hne. pose proof (componentDidUpdate_max None viewers Hpos) as H.
    destruct (componentDidUpdate _ _ _ _) as [b|].
    + destruct H as ([H|H] & Hmax & _); [|done]. eauto.
    + by destruct H.
  - intros before after earlier -> Hbefore.
    unfold componentDidUpdate in *. rewrite foldl_app, Hbefore.
    assert (∀ z w, falsy z = true → w ∈ measured after → gt z w = false)
      as Hpos'.
    { intros z w Hz Hw. apply Hpos; [done|].
      unfold measured in *. rewrite omap_app. apply elem_of_app. by right. }
    pose proof (componentDidUpdate_max (Some earlier) after Hpos') as H.
    unfold componentDidUpdate in H.
    destruct (foldl _ (Some earlier) after) as [b|]; [|by destruct H].
    destruct H as (_ & _ & H). eauto.
Qed.

End MinWidth_facts.

(** ** What the key row says about the children *)

Lemma children_keyRow (props : Props2) (state : State2) :
  children (keyRow props state) = [].
Proof. apply trs_keyRow. Qed.

Lemma length_children_array (props : Props2) (state : State2) items :
  value props = VArray items →
  expanded state = true ∨ hasBeenExpanded state = true →
  length (children (render props state))
  = Nat.min (length items) (PAGE_SIZE * (page state + 1)).
Proof.
  intros Hv Hs. rewrite (render_array _ _ _ Hv Hs).
  rewrite !children_app, children_keyRow, children_nextRow, app_nil_r.
  simpl. rewrite <- (length_map paths), children_arrayChild.
  by rewrite length_map, length_seq.
Qed.

Lemma length_children_object (props : Props2) (state : State2) entries :
  value props = VObject entries →
  expanded state = true ∨ hasBeenExpanded state = true →
  length (children (render props state)) = length entries.
Proof.
  intros Hv Hs. rewrite (render_object _ _ _ Hv Hs).
  rewrite children_app, children_keyRow. simpl.
  rewrite (proj2 (trs_objectChild _ _ _ _)).
  by rewrite length_map, Object_keys_length.
Qed.

(** X2: the cell beside the key of an array or an object. An empty one shows
    the bare text "[]" or "{}" whether collapsed or not. A collapsed one
    that is not empty shows "[…]" or "{…}" and the comment "// n items" or
    "// n keys", in the singular for n = 1; an expanded one shows no cell.
    The n of an object is the number of children it renders once expanded;
    the n of an array is the number of its elements, of which the children
    rendered are the first min(n, 25 * (page + 1)). *)
Theorem summary_counts_children :
  let comment (n : nat) (unit : string) :=
    lit "// " ++ nat_toString n ++ lit unit
    ++ (if decide (n = 1) then [] else lit "s") in
  (∀ (props : Props2) (state : State2) items,
     value props = VArray items →
     let n := length items in
     getValue (value props) true
     = Some (if decide (n = 0) then CellText (lit "[]")
             else CellSummary (lit "[" ++ ellipsis ++ lit "]")
                    (comment n " item"%string))
     ∧ getValue (value props) false
       = (if decide (n = 0) then Some (CellText (lit "[]")) else None)
     ∧ (expanded state = true →
        length (children (render props state))
        = Nat.min n (25 * (page state + 1))))
  ∧ (∀ (props : Props2) (state : State2) entries,
       value props = VObject entries →
       let n := length entries in
       getValue (value props) true
       = Some (if decide (n = 0) then CellText (lit "{}")
               else CellSummary (lit "{" ++ ellipsis ++ lit "}")
                      (comment n " key"%string))
       ∧ getValue (value props) false
         = (if decide (n = 0) then Some (CellText (lit "{}")) else None)
       ∧ (expanded state = true →
          length (children (render props state)) = n)).
Proof.
  intros comment. split.
  - intros props state items Hv n. rewrite Hv. split; [|split].
    + unfold getValue. fold n. destruct (decide (n = 0)) as [->|Hn]; [done|].
      assert ((0 <? n) = true) as -> by (apply Nat.ltb_lt; lia). done.
    + unfold getValue. fold n. by destruct (decide (n = 0)).
    + intros He. by apply length_children_array; auto.
  - intros props state entries Hv n. rewrite Hv. split; [|split].
    + unfold getValue. rewrite Object_keys_length. fold n.
      destruct (decide (n = 0)) as [->|Hn]; [done|].
      assert ((0 <? n) = true) as -> by (apply Nat.ltb_lt; lia). done.
    + unfold getValue. rewrite Object_keys_length. fold n.
      by destruct (decide (n = 0)).
    + intros He.
      by apply length_children_object; auto.
Qed.

(** ** The value cell of the other values *)

(** X3: the row of a value that is neither an array nor an object always has
    a value cell, of the type [getType] gives. The text shown is never
    longer than [`${value}`]; it is that text itself when the text has at
    most 100 code units or the node is expanded; and when it differs, the
    text has more than 100 code units and 91 are shown. *)
Theorem getValue_scalar (obj : JSValue) (collapsed : bool) :
  is_collection obj = false →
  ∃ displayValue,
    getValue obj collapsed = Some (CellValue (getType obj) displayValue)
    ∧ length displayValue ≤ length (toString obj)
    ∧ (length (toString obj) ≤ 100 ∨ collapsed = false →
       displayValue = toString obj)
    ∧ (displayValue ≠ toString obj →
       100 < length (toString obj) ∧ length displayValue = 91).
Proof.
  intros Hobj.
  assert (getValue obj collapsed
          = Some (CellValue (getType obj)
                    (if (MAX_VALUE_LENGTH <? length (toString obj))
                        && collapsed
                     then take 45 (toString obj) ++ ellipsis
                          ++ drop (length (toString obj) - 45) (toString obj)
                     else toString obj))) as ->
    by (by destruct obj).
  eexists. split; [done|].
  unfold MAX_VALUE_LENGTH.
  destruct (100 <? length (toString obj)) eqn:E; cbn [andb].
  - apply Nat.ltb_lt in E. destruct collapsed.
    + rewrite !length_app, length_take, length_drop.
      change (length ellipsis) with 1.
      split; [lia|]. split; [intros [?|?]; [lia|done]|]. lia.
    + split; [done|]. split; done.
  - apply Nat.ltb_ge in E. split; [done|]. split; done.
Qed.

(** ** Clicking a key twice *)

Lemma below_nonempty (props : Props2) (state : State2) :
  is_collection (value props) = true →
  isCollapsable (value props) = true →
  below props state ≠ [].
Proof.
  unfold below, isCollapsable.
  destruct (value props) as [| | | |items|entries|]; try done; simpl.
  - intros _ Hn%Nat.ltb_lt. rewrite array_loop_maxItem.
    destruct items as [|x items]; [simpl in Hn; lia|].
    simpl length. unfold PAGE_SIZE.
    replace (S (length items) `min` (25 * (page state + 1)))
      with (S (length items `min` (25 * (page state + 1) - 1))) by lia.
    done.
  - intros _ Hn%Nat.ltb_lt.
    destruct (Object_keys entries); [simpl in Hn; lia|done].
Qed.

Lemma below_empty (props : Props2) (state : State2) :
  isCollapsable (value props) = false →
  below props state = [].
Proof.
  unfold below, isCollapsable, nextRow.
  destruct (value props) as [| | | |items|entries|]; try done; simpl.
  - intros Hn%Nat.ltb_ge. destruct items; [|simpl in Hn; lia].
    by rewrite maxItem_eq.
  - intros Hn%Nat.ltb_ge.
    destruct (Object_keys entries); [done|simpl in Hn; lia].
Qed.

(** X4: two clicks on a key bring [expanded] back and leave [page] alone,
    but they set [hasBeenExpanded]. So they bring back what the instance
    renders, except for an array or an object that is not empty and had
    never been expanded: it was rendered without children and is now
    rendered with its children, hidden. *)
Theorem toggle_twice (props : Props2) (state : State2) :
  let state2 := handleClickKey (handleClickKey state) in
  expanded state2 = expanded state
  ∧ page state2 = page state
  ∧ hasBeenExpanded state2 = true
  ∧ (render props state2 = render props state
     ↔ ¬ (is_collection (value props) = true
          ∧ isCollapsable (value props) = true
          ∧ expanded state = false
          ∧ hasBeenExpanded state = false))
  ∧ (is_collection (value props) = true →
     isCollapsable (value props) = true →
     expanded state = false →
     hasBeenExpanded state = false →
     children (render props state) = []
     ∧ children (render props state2) ≠ []
     ∧ Forall (λ c, hide c = true) (children (render props state2))).
Proof.
  intros state2.
  assert (collapsed state2 = collapsed state) as Hc
    by (unfold collapsed; simpl; apply negb_involutive).
  split; [apply negb_involutive|]. split; [done|]. split; [done|].
  assert (keyRow props state2 = keyRow props state) as Hkey
    by (unfold keyRow, rowClasses; by rewrite Hc).
  assert (below props state2 = below props state) as Hbelow.
  { unfold below, arrayChild, objectChild, nextRow. rewrite Hc.
    by change (maxItem state2) with (maxItem state). }
  split; [split|].
  - intros Heq (Hv & Hn & He & Hh).
    rewrite !render_collection, Hkey, Hc, Hbelow in Heq by done.
    simpl in Heq. rewrite orb_true_r in Heq.
    unfold collapsed in Heq. rewrite He, Hh in Heq. simpl in Heq.
    apply app_inv_head in Heq. by apply (below_nonempty props state).
  - intros Hnot. destruct (is_collection (value props)) eqn:Hv.
    + rewrite !render_collection, Hkey, Hc, Hbelow by done.
      f_equal. simpl. rewrite orb_true_r.
      destruct (isCollapsable (value props)) eqn:Hn;
        [|rewrite below_empty by done; by destruct (_ || _)].
      unfold collapsed.
      destruct (expanded state) eqn:He; [done|].
      destruct (hasBeenExpanded state) eqn:Hh; [done|].
      by destruct Hnot.
    + rewrite !render_scalar; try (intros x E; by rewrite E in Hv).
      unfold valueRow, rowClasses. by rewrite Hc.
  - intros Hv Hn He Hh.
    rewrite !render_collection, Hkey, Hc, Hbelow by done.
    assert (negb (collapsed state) || hasBeenExpanded state = false) as ->
      by (unfold collapsed; by rewrite He, Hh).
    assert (negb (collapsed state) || hasBeenExpanded state2 = true) as ->
      by apply orb_true_r.
    rewrite app_nil_r, !children_app, children_keyRow.
    simpl. split; [done|].
    assert (∀ e, e ∈ below props state →
                 match e with
                 | ETr tr => is_TrNext tr = true
                 | EJSONViewerObj c => hide c = true
                 end) as Hall.
    { intros e. unfold below, nextRow.
      assert (collapsed state = true) as Hcs
        by (unfold collapsed; by rewrite He).
      destruct (value props) as [| | | |items|entries|]; try done.
      - intros [H|H]%elem_of_app.
        + apply list_elem_of_fmap in H as (key & -> & _). simpl.
          by rewrite Hcs, orb_true_r.
        + destruct (gt_maxItem _ _); [|by inversion H].
          by apply list_elem_of_singleton in H as ->.
      - intros H. apply list_elem_of_fmap in H as (key & -> & _). simpl.
        by rewrite Hcs, orb_true_r. }
    split.
    + pose proof (below_nonempty props state Hv Hn) as Hne.
      destruct (below props state) as [|e es] eqn:Hb; [done|].
      destruct e as [tr|c]; [|done].
      exfalso. clear Hall Hne. unfold below, nextRow in Hb.
      unfold isCollapsable in Hn.
      destruct (value props) as [| | | |items|entries|]; try done;
        simpl in Hn.
      * apply Nat.ltb_lt in Hn. rewrite array_loop_maxItem in Hb.
        destruct items as [|x items]; [simpl in Hn; lia|].
        simpl length in Hb. unfold PAGE_SIZE in Hb.
        replace (S (length items) `min` (25 * (page state + 1)))
          with (S (length items `min` (25 * (page state + 1) - 1)))
          in Hb by lia.
        done.
      * apply Nat.ltb_lt in Hn.
        destruct (Object_keys entries); [simpl in Hn; lia|done].
    + apply Forall_forall. intros c Hin.
      apply elem_of_children in Hin. by apply (Hall _ Hin).
Qed.

(** ** The state after a sequence of clicks *)

Lemma getState_dispatch_other store action paths :
  Action_paths action ≠ paths →
  getState (dispatch store action) paths = getState store paths.
Proof.
  intros H. apply getState_dispatch_ne; intros ->; by apply H.
Qed.

Lemma getState_run store actions paths :
  let state := getState store paths in
  let after := getState (run store actions) paths in
  let n := occurrences (ClickKey paths) actions in
  let m := occurrences (NextPage paths) actions in
  expanded after = xorb (expanded state) (Nat.odd n)
  ∧ hasBeenExpanded after = hasBeenExpanded state || (0 <? n)
  ∧ page after = page state + m.
Proof.
  revert store. unfold occurrences.
  induction actions as [|a actions IH]; intros store.
  { simpl. by rewrite xorb_false_r, orb_false_r, Nat.add_0_r. }
  simpl run. destruct (IH (dispatch store a)) as (IH1 & IH2 & IH3).
  cbv zeta. rewrite IH1, IH2, IH3, !filter_cons. clear IH IH1 IH2 IH3.
  destruct (decide (a = ClickKey paths)) as [->|H1].
  - rewrite getState_dispatch_eq by auto.
    rewrite decide_False by done. simpl length. simpl expanded.
    simpl hasBeenExpanded. simpl page.
    rewrite Nat.odd_succ, <- Nat.negb_odd.
    split; [by destruct (expanded _), (Nat.odd _)|].
    split; [by rewrite orb_true_r|done].
  - destruct (decide (a = NextPage paths)) as [->|H2].
    + rewrite getState_dispatch_eq by auto. simpl length. simpl expanded.
      simpl hasBeenExpanded. simpl page. repeat split. lia.
    + by rewrite getState_dispatch_ne.
Qed.

Lemma occurrences_Permutation action actions actions' :
  actions ≡ₚ actions' →
  occurrences action actions = occurrences action actions'.
Proof. unfold occurrences. by intros ->. Qed.

(** X5: the state of an instance after any sequence of clicks depends only
    on how many times each of its two handlers ran: [expanded] is flipped
    when the number of clicks on its key is odd, [hasBeenExpanded] is set
    when there was at least one, and [page] has grown by the number of
    clicks on its "Show more" button. The clicks on other instances and the
    order of the clicks make no difference. *)
Theorem state_counts_clicks store actions paths :
  let state := getState store paths in
  let after := getState (run store actions) paths in
  let n := occurrences (ClickKey paths) actions in
  let m := occurrences (NextPage paths) actions in
  after = {| expanded := xorb (expanded state) (Nat.odd n);
             hasBeenExpanded := hasBeenExpanded state || (0 <? n);
             page := page state + m |}
  ∧ (∀ actions',
       actions ≡ₚ actions' →
       getState (run store actions') paths = after)
  ∧ (∀ actions',
       filter (λ a, Action_paths a = paths) actions' = [] →
       getState (run store (actions ++ actions')) paths = after).
Proof.
  intros state after n m.
  assert (∀ s1 s2 : State2,
            expanded s1 = expanded s2 →
            hasBeenExpanded s1 = hasBeenExpanded s2 →
            page s1 = page s2 → s1 = s2) as Heq.
  { intros [] []; simpl; congruence. }
  destruct (getState_run store actions paths) as (H1 & H2 & H3).
  subst state after n m. cbv zeta in *.
  split; [by apply Heq|]. split.
  - intros actions' Hp.
    destruct (getState_run store actions' paths) as (H1' & H2' & H3').
    cbv zeta in *.
    apply Heq; rewrite ?H1, ?H2, ?H3, ?H1', ?H2', ?H3';
      by rewrite !(occurrences_Permutation _ _ _ Hp).
  - intros actions' Hnone. unfold run. rewrite foldl_app.
    fold (run store actions). fold (run (run store actions) actions').
    destruct (getState_run (run store actions) actions' paths)
      as (H1' & H2' & H3').
    assert (∀ a, Action_paths a = paths → occurrences a actions' = 0) as H0.
    { intros a Ha. unfold occurrences.
      destruct (filter (λ x, x = a) actions') as [|x l] eqn:E; [done|].
      assert (x ∈ filter (λ a, Action_paths a = paths) actions') as Hx.
      { assert (x ∈ filter (λ x, x = a) actions') as Hin
          by (rewrite E; by left).
        apply list_elem_of_filter in Hin as [-> Hin].
        by apply list_elem_of_filter. }
      rewrite Hnone in Hx. inversion Hx. }
    cbv zeta in *. rewrite !H0 in H1', H2', H3' by done.
    apply Heq; rewrite ?H1', ?H2', ?H3'; simpl;
      by rewrite ?xorb_false_r, ?orb_false_r, ?Nat.add_0_r.
Qed.

(** X6: from the state the constructor sets, whatever was clicked since: the
    children of the root are rendered, and the children of any other
    instance are rendered exactly when its key was clicked at least once,
    expanded or not; an instance other than the root that is expanded has
    [hasBeenExpanded] set. *)
Theorem children_rendered_iff_clicked actions :
  (let state := getState (run ∅ actions) [] in
   negb (collapsed state) || hasBeenExpanded state = true)
  ∧ (∀ paths,
       paths ≠ [] →
       let state := getState (run ∅ actions) paths in
       negb (collapsed state) || hasBeenExpanded state
       = (0 <? occurrences (ClickKey paths) actions)
       ∧ hasBeenExpanded state
         = (0 <? occurrences (ClickKey paths) actions)
       ∧ (expanded state = true → hasBeenExpanded state = true)).
Proof.
  split.
  - destruct (getState_run ∅ actions []) as (H1 & H2 & _).
    cbv zeta. unfold collapsed. rewrite H1, H2. simpl.
    destruct (occurrences _ _); [done|]. simpl. apply orb_true_r.
  - intros paths Hne.
    destruct (getState_run ∅ actions paths) as (H1 & H2 & _).
    cbv zeta. unfold collapsed. rewrite H1, H2.
    assert (expanded (getState ∅ paths) = false) as ->.
    { unfold getState. rewrite lookup_empty. simpl.
      apply bool_decide_eq_false. by destruct paths. }
    assert (hasBeenExpanded (getState ∅ paths) = false) as -> by done.
    simpl. destruct (occurrences _ _) as [|n]; [done|].
    simpl. rewrite orb_true_r. done.
Qed.

(** ** Showing more of an array *)

Lemma children_map_arrayChild (props : Props2) (state : State2) items ks :
  children (map (arrayChild props state items) ks)
  = map (λ key, {| hide := hide props || collapsed state;
                   label := Some (LIndex key);
                   value := Array_get items key;
                   paths := paths props
                            ++ [lit "[" ++ nat_toString key ++ lit "]"] |})
      ks.
Proof. induction ks as [|k ks IH]; simpl; [done|]. f_equal. exact IH. Qed.

Lemma iter_handleNextPage (k : nat) (state : State2) :
  Nat.iter k handleNextPage state
  = {| expanded := expanded state;
       hasBeenExpanded := hasBeenExpanded state;
       page := page state + k |}.
Proof.
  induction k as [|k IH]; simpl.
  - destruct state. simpl. by rewrite Nat.add_0_r.
  - rewrite IH. unfold handleNextPage. simpl. f_equal. lia.
Qed.

(** X7: an array whose children are rendered shows either all of its
    elements or the row "Show more", never both and never neither; each
    click on "Show more" keeps the children already rendered and adds
    elements after them; and once 25 * (page + 1) reaches the length, which
    takes at most length / 25 clicks from page 0, every element is rendered
    and the row is gone. *)
Theorem pagination_reveals_all (props : Props2) (state : State2)
    (items : list JSValue) :
  value props = VArray items →
  expanded state = true ∨ hasBeenExpanded state = true →
  (nextRow props state items = []
   ↔ length (children (render props state)) = length items)
  ∧ children (render props state)
    `prefix_of` children (render props (handleNextPage state))
  ∧ (∀ k,
       length items ≤ 25 * (page state + k + 1) →
       let state' := Nat.iter k handleNextPage state in
       length (children (render props state')) = length items
       ∧ nextRow props state' items = [])
  ∧ length items ≤ 25 * (0 + length items / 25 + 1).
Proof.
  intros Hv Hs. split; [|split; [|split]].
  - rewrite (length_children_array _ _ items), nextRow_eq by done. cbv zeta.
    unfold PAGE_SIZE. destruct (_ <? _) eqn:E.
    + apply Nat.ltb_lt in E. split; [done|lia].
    + apply Nat.ltb_ge in E. split; [lia|done].
  - assert (expanded (handleNextPage state) = true
            ∨ hasBeenExpanded (handleNextPage state) = true) as Hs' by done.
    rewrite (render_array _ _ _ Hv Hs), (render_array _ _ _ Hv Hs').
    rewrite !children_app, !children_keyRow, !children_nextRow, !app_nil_r.
    rewrite !app_nil_l, !children_map_arrayChild.
    change (collapsed (handleNextPage state)) with (collapsed state).
    change (page (handleNextPage state)) with (page state + 1).
    unfold PAGE_SIZE.
    set (cap := length items `min` (25 * (page state + 1))).
    set (cap' := length items `min` (25 * (page state + 1 + 1))).
    replace cap' with (cap + (cap' - cap)) by lia.
    rewrite seq_app, map_app. by apply prefix_app_r.
  - intros k Hk state'. subst state'. rewrite iter_handleNextPage.
    set (state' := {| expanded := expanded state;
                      hasBeenExpanded := hasBeenExpanded state;
                      page := page state + k |}).
    assert (expanded state' = true ∨ hasBeenExpanded state' = true) as Hs'
      by done.
    rewrite (length_children_array _ _ items), nextRow_eq by done.
    cbv zeta.
    unfold PAGE_SIZE. change (page state') with (page state + k).
    split; [lia|].
    destruct (_ <? _) eqn:E; [|done]. apply Nat.ltb_lt in E. lia.
  - pose proof (Nat.div_mod_eq (length items) 25).
    pose proof (Nat.mod_upper_bound (length items) 25). lia.
Qed.

(** ** Reasoning along the tree of instances *)

Lemma render_child_inv (props : Props2) (state : State2) (c : Props2) :
  EJSONViewerObj c ∈ render props state →
  (∃ items key,
     value props = VArray items ∧ items !! key = Some (value c)
     ∧ c = {| hide := hide props || collapsed state;
              label := Some (LIndex key);
              value := Array_get items key;
              paths := paths props
                       ++ [lit "[" ++ nat_toString key ++ lit "]"] |})
  ∨ (∃ entries key,
       value props = VObject entries ∧ (key, value c) ∈ entries
       ∧ c = {| hide := hide props || collapsed state;
                label := Some (LKey key);
                value := Object_get entries key;
                paths := paths props ++ [lit "." ++ key] |}).
Proof.
  unfold render, keyRow, nextRow.
  destruct (value props) as [| | | |items|entries|];
    try (by intros ?%list_elem_of_singleton).
  - intros [H|H]%elem_of_app.
    { destruct (label props); [|by inversion H].
      by apply list_elem_of_singleton in H. }
    destruct (_ || _); [|by inversion H].
    apply elem_of_app in H as [H|H].
    + apply list_elem_of_fmap in H as (key & [= ->] & Hkey).
      left. exists items, key. split; [done|]. split; [|done]. simpl.
      rewrite maxItem_eq in Hkey. apply elem_of_array_loop in Hkey.
      unfold Array_get. destruct (items !! key) eqn:E; [done|].
      apply lookup_ge_None in E. lia.
    + destruct (gt_maxItem _ _); [|by inversion H].
      by apply list_elem_of_singleton in H.
  - intros [H|H]%elem_of_app.
    { destruct (label props); [|by inversion H].
      by apply list_elem_of_singleton in H. }
    destruct (_ || _); [|by inversion H].
    apply list_elem_of_fmap in H as (key & [= ->] & Hkey).
    right. exists entries, key. split; [done|]. split; [|done]. simpl.
    unfold Object_keys in Hkey. rewrite own_keys_Permutation in Hkey.
    clear -Hkey. induction entries as [|[k v] entries IH]; [inversion Hkey|].
    simpl in *. destruct (decide (k = key)) as [->|Hne]; [by left|].
    apply elem_of_cons in Hkey as [->|Hkey]; [done|].
    right. by apply IH.
Qed.

Lemma render_child_paths (props : Props2) (state : State2) (c : Props2) :
  EJSONViewerObj c ∈ render props state →
  ∃ segment, path_segment segment ∧ paths c = paths props ++ [segment].
Proof.
  intros [(items & key & _ & _ & ->)|(entries & key & _ & _ & ->)]
    %render_child_inv; simpl; eexists; (split; [|done]); eexists; eauto.
Qed.

Lemma elem_of_instances store (props i : Props2) :
  i ∈ instances store (EJSONViewerObj props)
  ↔ i = props
    ∨ ∃ c, EJSONViewerObj c ∈ render props (getState store (paths props))
           ∧ i ∈ instances store (EJSONViewerObj c).
Proof.
  rewrite instances_unfold, elem_of_cons, elem_of_flat_map.
  split; (intros [?|H]; [by left|right]).
  - destruct H as ([tr|c] & He & Hi); [by inversion Hi|eauto].
  - destruct H as (c & He & Hi). eauto.
Qed.

Lemma elem_of_rows store (props : Props2) (tr : Tr) :
  tr ∈ rows store (EJSONViewerObj props)
  ↔ ETr tr ∈ render props (getState store (paths props))
    ∨ ∃ c, EJSONViewerObj c ∈ render props (getState store (paths props))
           ∧ tr ∈ rows store (EJSONViewerObj c).
Proof.
  rewrite rows_unfold, elem_of_flat_map. split.
  - intros ([t|c] & He & Hi); [|eauto].
    rewrite rows_ETr in Hi. apply list_elem_of_singleton in Hi as ->.
    by left.
  - intros [H|(c & He & Hi)]; [|eauto].
    exists (ETr tr). split; [done|]. rewrite rows_ETr. by left.
Qed.

Lemma instances_ind store (Q : Props2 → Props2 → Prop) :
  (∀ props, Q props props) →
  (∀ props c i,
     EJSONViewerObj c ∈ render props (getState store (paths props)) →
     i ∈ instances store (EJSONViewerObj c) →
     Q c i → Q props i) →
  ∀ props i, i ∈ instances store (EJSONViewerObj props) → Q props i.
Proof.
  intros Hrefl Hstep props.
  change ((λ e, match e with
                | ETr _ => True
                | EJSONViewerObj p =>
                    ∀ i, i ∈ instances store (EJSONViewerObj p) → Q p i
                end) (EJSONViewerObj props)).
  induction (EJSONViewerObj props) as [tr|p IH] using Element_height_ind;
    [done|].
  intros i [->|(c & Hc & Hi)]%elem_of_instances; [done|].
  apply (Hstep p c i Hc Hi). by apply (IH _ _ Hc).
Qed.

Lemma rows_ind store (Q : Props2 → Tr → Prop) :
  (∀ props tr,
     ETr tr ∈ render props (getState store (paths props)) → Q props tr) →
  (∀ props c tr,
     EJSONViewerObj c ∈ render props (getState store (paths props)) →
     tr ∈ rows store (EJSONViewerObj c) →
     Q c tr → Q props tr) →
  ∀ props tr, tr ∈ rows store (EJSONViewerObj props) → Q props tr.
Proof.
  intros Hown Hstep props.
  change ((λ e, match e with
                | ETr _ => True
                | EJSONViewerObj p =>
                    ∀ tr, tr ∈ rows store (EJSONViewerObj p) → Q p tr
                end) (EJSONViewerObj props)).
  induction (EJSONViewerObj props) as [tr|p IH] using Element_height_ind;
    [done|].
  intros tr [H|(c & Hc & Hi)]%elem_of_rows; [by apply Hown|].
  apply (Hstep p c tr Hc Hi). by apply (IH _ _ Hc).
Qed.

Lemma instances_prefix store (props i : Props2) :
  i ∈ instances store (EJSONViewerObj props) →
  paths props `prefix_of` paths i.
Proof.
  revert props i.
  apply (instances_ind store (λ p i, paths p `prefix_of` paths i)); [done|].
  intros props c i Hc _ IH.
  apply render_child_paths in Hc as (segment & _ & Hc).
  etrans; [|done]. rewrite Hc. by apply prefix_app_r.
Qed.

Lemma instances_path_segments store (props i : Props2) :
  i ∈ instances store (EJSONViewerObj props) →
  Forall path_segment (paths props) → Forall path_segment (paths i).
Proof.
  revert props i.
  apply (instances_ind store
           (λ p i, Forall path_segment (paths p) →
                   Forall path_segment (paths i))); [done|].
  intros props c i Hc _ IH Hp. apply IH.
  apply render_child_paths in Hc as (segment & Hs & ->).
  apply Forall_app. split; [done|]. by constructor.
Qed.

(** ** A row is hidden exactly when an ancestor is collapsed *)

(** X8: the [hide] that an instance receives, and puts on its row, is the
    [hide] of the instance the tree starts at or the collapsed state of one
    of the instances between the two: below the root, whose [hide] is unset,
    the row of a node is hidden exactly when some proper ancestor of the
    node is collapsed. *)
Theorem hidden_iff_ancestor_collapsed store (props i : Props2) :
  i ∈ instances store (EJSONViewerObj props) →
  (∀ state tr,
     ETr tr ∈ render i state → is_TrNode tr = true → Tr_hide tr = hide i)
  ∧ (hide i = true
     ↔ hide props = true
       ∨ ∃ ancestor,
           paths props `prefix_of` ancestor
           ∧ ancestor `prefix_of` paths i
           ∧ ancestor ≠ paths i
           ∧ collapsed (getState store ancestor) = true).
Proof.
  intros Hi. split.
  { intros state tr. unfold render, keyRow, valueRow, nextRow.
    destruct (value i) as [| | | |items|entries|];
      try (by intros [= ->]%list_elem_of_singleton).
    - intros [H|H]%elem_of_app.
      { destruct (label i); [|by inversion H].
        by apply list_elem_of_singleton in H as [= ->]. }
      destruct (_ || _); [|by inversion H].
      apply elem_of_app in H as [H|H].
      + by apply list_elem_of_fmap in H as (key & ? & _).
      + destruct (gt_maxItem _ _); [|by inversion H].
        by apply list_elem_of_singleton in H as [= ->].
    - intros [H|H]%elem_of_app.
      { destruct (label i); [|by inversion H].
        by apply list_elem_of_singleton in H as [= ->]. }
      destruct (_ || _); [|by inversion H].
      by apply list_elem_of_fmap in H as (key & ? & _). }
  revert props i Hi.
  apply (instances_ind store
           (λ p i,
              hide i = true
              ↔ hide p = true
                ∨ ∃ ancestor,
                    paths p `prefix_of` ancestor
                    ∧ ancestor `prefix_of` paths i
                    ∧ ancestor ≠ paths i
                    ∧ collapsed (getState store ancestor) = true)).
  - intros p. split; [by left|]. intros [?|(q & H1 & H2 & H3 & _)]; [done|].
    destruct H3. by apply (anti_symm prefix).
  - intros p c i Hc Hi IH. rewrite IH. clear IH.
    pose proof (instances_prefix _ _ _ Hi) as Hci.
    destruct (render_child _ _ _ Hc) as (_ & Hhide & (segment & Hpc) & _).
    rewrite Hhide. split.
    + intros [[?|Hcol]%orb_true_iff|(q & H1 & H2 & H3 & H4)]; [by left|..].
      * right. exists (paths p). split; [done|].
        split; [etrans; [|done]; rewrite Hpc; by apply prefix_app_r|].
        split; [|done]. intros E. apply prefix_length in Hci.
        rewrite Hpc, <- E, length_app in Hci. simpl in Hci. lia.
      * right. exists q. split; [|done].
        etrans; [|done]. rewrite Hpc. by apply prefix_app_r.
    + intros [?|(q & H1 & H2 & H3 & H4)]; [left; by apply orb_true_iff; left|].
      destruct (prefix_weak_total _ _ _ H2 Hci) as [Hq|Hq].
      * destruct H1 as [k1 Hk1]. destruct Hq as [k2 Hq].
        rewrite Hpc, Hk1, <- (assoc_L app) in Hq.
        apply app_inv_head in Hq.
        destruct k1 as [|x k1].
        -- left. apply orb_true_iff. right.
           rewrite app_nil_r in Hk1. by rewrite <- Hk1.
        -- right. exists q. split; [|done].
           injection Hq as <- Hq.
           symmetry in Hq. apply app_eq_nil in Hq as [-> _].
           by rewrite Hpc, Hk1.
      * right. by exists q.
Qed.

(** ** Handlers and mounted instances *)

Lemma render_TrNode_own_row (props : Props2) (state : State2) (tr : Tr) :
  ETr tr ∈ render props state → is_TrNode tr = true →
  has_own_row props = true.
Proof.
  intros Htr Hnode. pose proof (render_own_rows props state) as Hcount.
  destruct (has_own_row props); [done|].
  apply elem_of_trs in Htr.
  assert (tr ∈ filter (λ tr, is_TrNode tr = true)
                 (trs (render props state))) as Hf
    by (by apply list_elem_of_filter).
  unfold count_nodes in Hcount.
  destruct (filter _ _); [inversion Hf|done].
Qed.

Lemma render_handlers (props : Props2) (state : State2) (tr : Tr)
    (action : Action) :
  ETr tr ∈ render props state →
  Tr_onClick tr = Some action →
  Action_paths action = paths props
  ∧ match action with
    | ClickKey _ =>
        isCollapsable (value props) = true ∧ has_own_row props = true
    | NextPage _ =>
        ∃ items,
          value props = VArray items
          ∧ 25 * (page state + 1) < length items
    end.
Proof.
  intros Htr Hclick.
  pose proof Htr as Hr. apply elem_of_trs, render_onClick in Hr.
  destruct Hr as [[Hnode E]|(Hnext & E & _)]; rewrite E in Hclick.
  - unfold onClickKey in Hclick.
    destruct (isCollapsable (value props)) eqn:Hc; [|done].
    injection Hclick as <-. split; [done|]. split; [done|].
    by apply (render_TrNode_own_row props state tr).
  - injection Hclick as <-. split; [done|].
    revert Htr. unfold render, keyRow, nextRow.
    destruct (value props) as [| | | |items|entries|];
      try (intros [= ->]%list_elem_of_singleton; done).
    + intros [H|H]%elem_of_app.
      { destruct (label props); [|by inversion H].
        apply list_elem_of_singleton in H as [= ->]. done. }
      destruct (_ || _); [|by inversion H].
      apply elem_of_app in H as [H|H].
      { by apply list_elem_of_fmap in H as (key & ? & _). }
      rewrite maxItem_eq in H. cbv [gt_maxItem] in H.
      destruct (_ <? _) eqn:Hlt; [|by inversion H].
      apply Nat.ltb_lt in Hlt. exists items. split; [done|].
      unfold PAGE_SIZE in Hlt. lia.
    + intros [H|H]%elem_of_app.
      { destruct (label props); [|by inversion H].
        apply list_elem_of_singleton in H as [= ->]. done. }
      destruct (_ || _); [|by inversion H].
      by apply list_elem_of_fmap in H as (key & ? & _).
Qed.

Lemma rows_handlers store (props : Props2) (tr : Tr) (action : Action) :
  tr ∈ rows store (EJSONViewerObj props) →
  Tr_onClick tr = Some action →
  ∃ i,
    i ∈ instances store (EJSONViewerObj props)
    ∧ Action_paths action = paths i
    ∧ match action with
      | ClickKey _ =>
          isCollapsable (value i) = true ∧ has_own_row i = true
      | NextPage _ =>
          ∃ items,
            value i = VArray items
            ∧ 25 * (page (getState store (paths i)) + 1) < length items
      end.
Proof.
  intros Hin. revert action. revert props tr Hin.
  apply (rows_ind store
           (λ p tr,
              ∀ action, Tr_onClick tr = Some action →
              ∃ i, i ∈ instances store (EJSONViewerObj p)
                   ∧ Action_paths action = paths i
                   ∧ match action with
                     | ClickKey _ =>
                         isCollapsable (value i) = true
                         ∧ has_own_row i = true
                     | NextPage _ =>
                         ∃ items,
                           value i = VArray items
                           ∧ 25 * (page (getState store (paths i)) + 1)
                             < length items
                     end)).
  - intros p tr Htr action Hclick. exists p.
    split; [apply elem_of_instances; by left|].
    by apply (render_handlers p _ tr).
  - intros p c tr Hc _ IH action Hclick.
    destruct (IH action Hclick) as (i & Hi & H).
    exists i. split; [|done]. apply elem_of_instances. eauto.
Qed.

(** X9: every handler registered on a row of the table belongs to an
    instance that is mounted. A toggle handler belongs to an instance whose
    value is collapsable and which is not an array or object at the root; a
    "Show more" handler belongs to an array longer than 25 * (page + 1). *)
Theorem handlers_of_mounted_instances store (v : JSValue)
    (action : Action) :
  Some action ∈ map Tr_onClick (rows store (root v)) →
  ∃ i,
    i ∈ instances store (root v)
    ∧ Action_paths action = paths i
    ∧ match action with
      | ClickKey target =>
          isCollapsable (value i) = true
          ∧ (is_collection v = true → target ≠ [])
      | NextPage _ =>
          ∃ items,
            value i = VArray items
            ∧ 25 * (page (getState store (paths i)) + 1) < length items
      end.
Proof.
  intros (tr & Hclick & Htr)%list_elem_of_fmap.
  destruct (rows_handlers store _ tr action Htr (eq_sym Hclick))
    as (i & Hi & Hp & H).
  exists i. split; [done|]. split; [done|].
  destruct action as [target|target]; [|done].
  destruct H as [Hc Hown]. split; [done|].
  intros Hv ->. simpl in Hp.
  apply elem_of_instances in Hi as [->|(c & Hc' & Hi)].
  - unfold has_own_row in Hown. simpl in Hown. by rewrite Hv in Hown.
  - apply instances_prefix, prefix_length in Hi.
    apply render_child_paths in Hc' as (segment & _ & E).
    rewrite E, <- Hp, length_app in Hi. simpl in Hi. lia.
Qed.

(** ** Values read from the document *)

Lemma is_json_Array_get (items : list JSValue) key v :
  forallb is_json items = true → items !! key = Some v → is_json v = true.
Proof.
  intros H Hk. apply list_elem_of_lookup_2 in Hk.
  rewrite forallb_forall in H. apply H. by apply list_elem_of_In.
Qed.

Lemma is_json_Object_get (entries : list (jsstring * JSValue)) key v :
  forallb (λ kv, is_json kv.2) entries = true →
  (key, v) ∈ entries → is_json v = true.
Proof.
  intros H Hk. rewrite forallb_forall in H.
  apply (H (key, v)). by apply list_elem_of_In.
Qed.

Lemma instances_is_json store (props i : Props2) :
  i ∈ instances store (EJSONViewerObj props) →
  is_json (value props) = true → is_json (value i) = true.
Proof.
  revert props i.
  apply (instances_ind store
           (λ p i, is_json (value p) = true → is_json (value i) = true));
    [done|].
  intros p c i Hc _ IH Hp. apply IH.
  apply render_child_inv in Hc
    as [(items & key & Hv & Hk & _)|(entries & key & Hv & Hk & _)];
    rewrite Hv in Hp; simpl in Hp.
  - by eapply is_json_Array_get.
  - by eapply is_json_Object_get.
Qed.

(** X10: every child that [render] mounts holds a value found in its parent:
    the element at its index, or the value of a property of that name. So
    when [undefined] does not occur in the document, as in what
    [JSON.parse] returns, it does not occur in the value of any mounted
    instance and no value cell has the type "unknown". *)
Theorem children_hold_values_of_parent store (v : JSValue) :
  (∀ (props : Props2) (state : State2) (c : Props2),
     EJSONViewerObj c ∈ render props state →
     (∃ items key,
        value props = VArray items ∧ label c = Some (LIndex key)
        ∧ items !! key = Some (value c))
     ∨ (∃ entries key,
          value props = VObject entries ∧ label c = Some (LKey key)
          ∧ (key, value c) ∈ entries))
  ∧ (is_json v = true →
     ∀ i, i ∈ instances store (root v) →
          is_json (value i) = true ∧ getType (value i) ≠ Tunknown).
Proof.
  split.
  - intros props state c
      [(items & key & Hv & Hk & ->)|(entries & key & Hv & Hk & ->)]
      %render_child_inv; [left|right]; eauto 6.
  - intros Hjson i Hi.
    assert (is_json (value i) = true) as H
      by (by apply (instances_is_json store _ i Hi)).
    split; [done|]. by destruct (value i).
Qed.

(** ** React keys *)

Lemma nat_toString_head n :
  ∃ c rest, nat_toString n = c :: rest ∧ (48 ≤ c ≤ 57)%N.
Proof.
  unfold nat_toString.
  assert (Nat.to_uint n ≠ Decimal.Nil) as Hnil.
  { intros E. pose proof (DecimalNat.Unsigned.of_to n) as H.
    rewrite E in H. simpl in H. subst n. discriminate E. }
  destruct (Nat.to_uint n); [done|..]; simpl; eexists _, _;
    (split; [done|lia]).
Qed.

Lemma concat_paths_head (ps : list jsstring) :
  Forall path_segment ps →
  concat ps = []
  ∨ ∃ c rest, concat ps = c :: rest ∧ (c = 46 ∨ c = 91)%N.
Proof.
  intros [|segment tail [rest [->| ->]] _]; [by left|right..]; simpl; eauto.
Qed.

Lemma keys_keyRow (props : Props2) (state : State2) :
  map Element_key (keyRow props state)
  = match label props with
    | Some _ => [Some (concat (paths props))]
    | None => []
    end.
Proof. unfold keyRow. by destruct (label props). Qed.

Lemma keys_arrayChild (props : Props2) (state : State2) items ks :
  map Element_key (map (arrayChild props state items) ks)
  = map (λ key, Some (nat_toString key)) ks.
Proof. induction ks as [|k ks IH]; simpl; [done|]. f_equal. exact IH. Qed.

Lemma keys_objectChild (props : Props2) (state : State2) entries ks :
  map Element_key (map (objectChild props state entries) ks) = map Some ks.
Proof. induction ks as [|k ks IH]; simpl; [done|]. f_equal. exact IH. Qed.

Lemma keys_nextRow (props : Props2) (state : State2) items :
  ∀ k, k ∈ map Element_key (nextRow props state items) →
       k = Some (lit "next").
Proof.
  intros k. unfold nextRow. destruct (gt_maxItem _ _); [|by inversion 1].
  by intros ->%list_elem_of_singleton.
Qed.

(** X11: the elements that an array renders have distinct React keys,
    whatever the array, when its [paths] are segments as [render] builds
    them, which is the case of every mounted instance. The elements that an
    object with distinct property names renders have distinct keys exactly
    when the object has no label or none of its properties is named as the
    text of its [paths]: such a property has the key of the row of the
    object. *)
Theorem render_keys_distinct (props : Props2) (state : State2) :
  (∀ items,
     value props = VArray items →
     Forall path_segment (paths props) →
     NoDup (map Element_key (render props state)))
  ∧ (∀ entries,
       value props = VObject entries →
       NoDup (map fst entries) →
       expanded state = true ∨ hasBeenExpanded state = true →
       (NoDup (map Element_key (render props state))
        ↔ label props = None ∨ concat (paths props) ∉ map fst entries))
  ∧ (∀ store v,
       props ∈ instances store (root v) →
       Forall path_segment (paths props)).
Proof.
  split; [|split].
  - intros items Hv Hpaths. unfold render. rewrite Hv.
    rewrite map_app, keys_keyRow.
    assert (NoDup (map Element_key
                     (map (arrayChild props state items)
                        (array_loop (length items) 0 (maxItem state))
                      ++ nextRow props state items))) as Hbelow.
    { rewrite map_app, keys_arrayChild. apply NoDup_app. split; [|split].
      - apply NoDup_fmap_2_strong; [|rewrite array_loop_maxItem;
                                      apply NoDup_seq].
        intros k k' _ _ [= H]. by apply nat_toString_inj.
      - intros k Hk Hn. apply keys_nextRow in Hn as ->.
        apply list_elem_of_fmap in Hk as (key & [= Hk] & _).
        destruct (nat_toString_head key) as (c & rest & E & Hc).
        rewrite E in Hk. injection Hk as <- _. lia.
      - unfold nextRow. destruct (gt_maxItem _ _); [|constructor].
        apply NoDup_singleton. }
    destruct (_ || _); [|destruct (label props); simpl;
                         [apply NoDup_singleton|constructor]].
    destruct (label props); [|done].
    apply NoDup_app. split; [apply NoDup_singleton|]. split; [|done].
    intros k ->%list_elem_of_singleton Hk.
    rewrite map_app, keys_arrayChild in Hk.
    destruct (concat_paths_head _ Hpaths) as [E|(c & rest & E & Hc)];
      rewrite E in Hk; apply elem_of_app in Hk as [Hk|Hk].
    + apply list_elem_of_fmap in Hk as (key & [= Hk] & _).
      destruct (nat_toString_head key) as (c & rest & E' & _). congruence.
    + by apply keys_nextRow in Hk.
    + apply list_elem_of_fmap in Hk as (key & [= Hk] & _).
      destruct (nat_toString_head key) as (c' & rest' & E' & Hc').
      rewrite E' in Hk. injection Hk as -> _. lia.
    + apply keys_nextRow in Hk. injection Hk as -> _. lia.
  - intros entries Hv Hkeys Hs. rewrite (render_object _ _ _ Hv Hs).
    rewrite map_app, keys_keyRow, keys_objectChild.
    assert (NoDup (map Some (Object_keys entries))) as Hchildren.
    { apply NoDup_fmap_2_strong; [by intros k k' _ _ [= ->]|].
      unfold Object_keys. by rewrite own_keys_Permutation. }
    assert (∀ k, Some k ∈ map Some (Object_keys entries)
                 ↔ k ∈ map fst entries) as Hin.
    { intros k. unfold Object_keys. rewrite <- (own_keys_Permutation (map fst entries)) at 2.
      split; [|intros H; apply list_elem_of_fmap; eauto].
      by intros (k' & [= ->] & H)%list_elem_of_fmap. }
    destruct (label props) as [l|].
    + rewrite NoDup_app. split.
      * intros (_ & Hdis & _). right. intros Hk. apply Hin in Hk.
        apply (Hdis (Some (concat (paths props)))); [by left|done].
      * intros [?|Hnot]; [done|]. split; [apply NoDup_singleton|].
        split; [|done]. intros k ->%list_elem_of_singleton Hk.
        by apply Hnot, Hin.
    + simpl. split; [by left|done].
  - intros store v Hi. unfold root in Hi.
    by apply (instances_path_segments _ _ _ Hi).
Qed.

(** ** Indents *)

(** X12: the row of a node is indented by the length of its [paths] less
    one, the row "Show more" of an array by the length of its [paths], which
    is also the indent of the rows of its children. In the table of a
    document no indent is negative, except that a document that is neither
    an array nor an object renders as one row of indent -1. *)
Theorem rows_indent store (v : JSValue) :
  (∀ (props : Props2) (state : State2) tr,
     ETr tr ∈ render props state →
     Tr_indent tr
     = (Z.of_nat (length (paths props)) - (if is_TrNode tr then 1 else 0))%Z)
  ∧ (∀ (props : Props2) (state : State2) c,
       EJSONViewerObj c ∈ render props state →
       length (paths c) = S (length (paths props)))
  ∧ (∀ (props : Props2) tr,
       tr ∈ rows store (EJSONViewerObj props) →
       (Z.of_nat (length (paths props)) - 1 ≤ Tr_indent tr)%Z)
  ∧ (is_collection v = true →
     ∀ tr, tr ∈ rows store (root v) → (0 ≤ Tr_indent tr)%Z)
  ∧ (is_collection v = false →
     ∃ tr, rows store (root v) = [tr] ∧ Tr_indent tr = (-1)%Z).
Proof.
  assert (∀ (props : Props2) (state : State2) tr,
            ETr tr ∈ render props state →
            Tr_indent tr
            = (Z.of_nat (length (paths props))
               - (if is_TrNode tr then 1 else 0))%Z) as Hown.
  { intros props state tr. unfold render, keyRow, valueRow, nextRow.
    unfold indentStyles, nextIndentStyles.
    destruct (value props) as [| | | |items|entries|];
      try (by intros [= ->]%list_elem_of_singleton).
    - intros [H|H]%elem_of_app.
      { destruct (label props); [|by inversion H].
        by apply list_elem_of_singleton in H as [= ->]. }
      destruct (_ || _); [|by inversion H].
      apply elem_of_app in H as [H|H].
      + by apply list_elem_of_fmap in H as (key & ? & _).
      + destruct (gt_maxItem _ _); [|by inversion H].
        apply list_elem_of_singleton in H as [= ->]. simpl. lia.
    - intros [H|H]%elem_of_app.
      { destruct (label props); [|by inversion H].
        by apply list_elem_of_singleton in H as [= ->]. }
      destruct (_ || _); [|by inversion H].
      by apply list_elem_of_fmap in H as (key & ? & _). }
  assert (∀ (props : Props2) (state : State2) c,
            EJSONViewerObj c ∈ render props state →
            length (paths c) = S (length (paths props))) as Hchild.
  { intros props state c (segment & _ & ->)%render_child_paths.
    rewrite length_app. simpl. lia. }
  assert (∀ (props : Props2) tr,
            tr ∈ rows store (EJSONViewerObj props) →
            (Z.of_nat (length (paths props)) - 1 ≤ Tr_indent tr)%Z) as Hge.
  { apply (rows_ind store
             (λ p tr, (Z.of_nat (length (paths p)) - 1 ≤ Tr_indent tr)%Z)).
    - intros p tr Htr. rewrite (Hown _ _ _ Htr).
      destruct (is_TrNode tr); lia.
    - intros p c tr Hc _ IH. apply Hchild in Hc. lia. }
  split; [done|]. split; [done|]. split; [done|]. split.
  - intros Hv tr. unfold root.
    intros [Htr|(c & Hc & Hin)]%elem_of_rows.
    + rewrite (Hown _ _ _ Htr). cbn [paths length].
      assert (is_TrNode tr = false) as ->; [|lia].
      destruct (is_TrNode tr) eqn:E; [exfalso|done].
      apply elem_of_trs in Htr. cbn [paths] in Htr.
      assert (tr ∈ filter (λ tr, is_TrNode tr = true)
                     (trs (render {| paths := []; value := v;
                                     label := None; hide := false |}
                             (getState store [])))) as Hf
        by (by apply list_elem_of_filter).
      pose proof (render_own_rows
                    {| paths := []; value := v; label := None;
                       hide := false |} (getState store [])) as Hcount.
      unfold count_nodes, has_own_row in Hcount. cbn [label value] in Hcount.
      rewrite Hv in Hcount. cbn [negb] in Hcount.
      destruct (filter _ _); [inversion Hf|done].
    + apply Hge in Hin. apply Hchild in Hc. simpl in Hc. lia.
  - intros Hv. rewrite rows_root_scalar by done. eauto.
Qed.

(** ** The first rendering *)

Lemma render_never_expanded (c : Props2) (state : State2) :
  is_Some (label c) → paths c ≠ [] →
  expanded state = false → hasBeenExpanded state = false →
  render c state = [ETr (collapsed_row c)].
Proof.
  intros [l Hl] Hp He Hh.
  assert ((0 <? length (paths c)) = true) as Hlen
    by (apply Nat.ltb_lt; destruct (paths c); [done|simpl; lia]).
  unfold render, keyRow, valueRow, collapsed_row, rowClasses, indentStyles,
    collapsed.
  rewrite He, Hh, Hl, Hlen. simpl negb. simpl orb.
  destruct (value c); by rewrite ?app_nil_r.
Qed.

(** X13: an instance with a label that is collapsed and was never expanded
    renders as one row and mounts no child. So the first rendering of a
    document that is an array or an object mounts the root and its children
    only, and shows one collapsed row for each child, plus the row "Show
    more" when the document is an array of more than 25 elements. *)
Theorem first_rendering (v : JSValue) :
  (∀ store (c : Props2),
     is_Some (label c) → paths c ≠ [] →
     expanded (getState store (paths c)) = false →
     hasBeenExpanded (getState store (paths c)) = false →
     rows store (EJSONViewerObj c) = [collapsed_row c]
     ∧ instances store (EJSONViewerObj c) = [c])
  ∧ (is_collection v = true →
     let props :=
       {| paths := []; value := v; label := None; hide := false |} in
     let elements := render props (constructor []) in
     rows ∅ (root v)
     = map (λ e, match e with
                 | ETr tr => tr
                 | EJSONViewerObj c => collapsed_row c
                 end) elements
     ∧ instances ∅ (root v) = props :: children elements
     ∧ length (rows ∅ (root v))
       = match v with
         | VArray items =>
             Nat.min (length items) 25
             + (if 25 <? length items then 1 else 0)
         | VObject entries => length entries
         | _ => 0
         end).
Proof.
  assert (∀ store (c : Props2),
            is_Some (label c) → paths c ≠ [] →
            expanded (getState store (paths c)) = false →
            hasBeenExpanded (getState store (paths c)) = false →
            rows store (EJSONViewerObj c) = [collapsed_row c]
            ∧ instances store (EJSONViewerObj c) = [c]) as Hchild.
  { intros store c Hl Hp He Hh.
    rewrite rows_unfold, instances_unfold.
    by rewrite render_never_expanded. }
  split; [done|]. intros Hv props elements.
  assert (∀ e, e ∈ elements →
               match e with
               | ETr _ => True
               | EJSONViewerObj c =>
                   rows ∅ e = [collapsed_row c] ∧ instances ∅ e = [c]
               end) as Hall.
  { intros [tr|c] He; [done|].
    destruct (render_child _ _ _ He) as (Hl & _ & (segment & Hp) & _).
    assert (paths c ≠ []) as Hne by (rewrite Hp; by destruct (paths props)).
    apply Hchild; try done.
    - unfold getState. rewrite lookup_empty. simpl.
      apply bool_decide_eq_false. destruct (paths c); [done|simpl; lia]. }
  assert (rows ∅ (root v)
          = map (λ e, match e with
                      | ETr tr => tr
                      | EJSONViewerObj c => collapsed_row c
                      end) elements
          ∧ instances ∅ (root v) = props :: children elements) as [Hr Hi].
  { unfold root. rewrite rows_unfold, instances_unfold.
    change (render _ (getState ∅ _)) with elements.
    fold props. clearbody elements. split; [|f_equal].
    - induction elements as [|e es IH]; [done|]. simpl.
      rewrite IH by (intros e' He'; apply Hall; by right).
      assert (e ∈ e :: es) as He by by left.
      apply Hall in He. destruct e as [tr|c]; [done|].
      destruct He as [-> _]. done.
    - induction elements as [|e es IH]; [done|]. simpl.
      rewrite IH by (intros e' He'; apply Hall; by right).
      assert (e ∈ e :: es) as He by by left.
      apply Hall in He. destruct e as [tr|c]; [done|].
      destruct He as [_ ->]. done. }
  split; [done|]. split; [done|].
  rewrite Hr, length_map. subst elements.
  assert (expanded (constructor []) = true
          ∨ hasBeenExpanded (constructor []) = true) as Hs by (by left).
  destruct v as [| | | |items|entries|]; try done.
  - rewrite (render_array props _ items eq_refl Hs), nextRow_eq.
    rewrite !length_app, length_map, length_seq. cbv zeta.
    unfold PAGE_SIZE. simpl.
    by destruct (25 <? length items).
  - rewrite (render_object props _ entries eq_refl Hs).
    rewrite length_app, length_map, Object_keys_length. done.
Qed.

(** ** The stores that clicks can reach *)

Lemma instances_below_longer store (props c i : Props2) (state : State2) :
  EJSONViewerObj c ∈ render props state →
  i ∈ instances store (EJSONViewerObj c) →
  paths c `prefix_of` paths i ∧ length (paths c) = S (length (paths props))
  ∧ length (paths props) < length (paths i).
Proof.
  intros Hc Hi. apply instances_prefix in Hi.
  apply render_child_paths in Hc as (segment & _ & E).
  pose proof (prefix_length _ _ Hi) as Hlen.
  rewrite E, length_app in *. simpl in *. split; [done|]. lia.
Qed.

Lemma render_child_same_paths (p p' : Props2) (st st' : State2)
    (c c' : Props2) :
  value p = value p' →
  EJSONViewerObj c ∈ render p st →
  EJSONViewerObj c' ∈ render p' st' →
  paths p = paths p' →
  paths c = paths c' →
  value c = value c'.
Proof.
  intros Hvalue Hc Hc' Hp Hpaths.
  apply render_child_inv in Hc
    as [(items & key & Hv & _ & ->)|(entries & key & Hv & _ & ->)];
    apply render_child_inv in Hc'
      as [(items' & key' & Hv' & _ & ->)|(entries' & key' & Hv' & _ & ->)];
    simpl in *; rewrite Hp in Hpaths; apply app_inv_head in Hpaths;
    try (by injection Hpaths); try congruence.
  injection Hpaths as Hk. apply app_inv_tail, nat_toString_inj in Hk.
  congruence.
Qed.

(** The value of an instance is determined by its [paths]. *)
Lemma instances_value store store' (props props' i j : Props2) :
  i ∈ instances store (EJSONViewerObj props) →
  j ∈ instances store' (EJSONViewerObj props') →
  paths props = paths props' → value props = value props' →
  paths i = paths j → value i = value j.
Proof.
  intros Hi. revert props' j. revert props i Hi.
  apply (instances_ind store
           (λ p i,
              ∀ p' j,
                j ∈ instances store' (EJSONViewerObj p') →
                paths p = paths p' → value p = value p' →
                paths i = paths j → value i = value j)).
  - intros p p' j [->|(c' & Hc' & Hj)]%elem_of_instances Hp Hv Hij; [done|].
    destruct (instances_below_longer _ _ _ _ _ Hc' Hj) as (_ & _ & Hlen).
    rewrite <- Hij, Hp in Hlen. lia.
  - intros p c i Hc Hi IH p' j Hj Hp Hv Hij.
    destruct (instances_below_longer _ _ _ _ _ Hc Hi) as (Hci & Hlc & Hlen).
    apply elem_of_instances in Hj as [->|(c' & Hc' & Hj)].
    { rewrite Hij, Hp in Hlen. lia. }
    destruct (instances_below_longer _ _ _ _ _ Hc' Hj) as (Hcj & Hlc' & _).
    assert (paths c = paths c') as Hcc.
    { rewrite Hij in Hci.
      destruct (prefix_weak_total _ _ _ Hci Hcj) as [H|H];
        [|symmetry]; apply prefix_length_eq; try done;
        rewrite Hlc, Hlc', Hp; lia. }
    apply (IH c' j Hj Hcc); [|done].
    by apply (render_child_same_paths p p' _ _ c c' Hv Hc Hc').
Qed.

Lemma dispatch_keeps_instances store action (props : Props2) q :
  q ∈ map paths (instances store (EJSONViewerObj props)) →
  q ∈ map paths (instances (dispatch store action) (EJSONViewerObj props)).
Proof.
  apply instances_mono; try done.
  - intros p.
    destruct (decide (action = ClickKey p)) as [->|H1].
    { rewrite getState_dispatch_eq by auto. simpl. by rewrite orb_true_r. }
    destruct (decide (action = NextPage p)) as [->|H2].
    { by rewrite getState_dispatch_eq by auto. }
    by rewrite getState_dispatch_ne.
  - intros p. apply page_dispatch.
Qed.

(** X14: in every store that clicks on the rows of a document can reach, only
    mounted instances have had their state set; an array or an object at the
    root is still expanded, since no row toggles it; and an instance whose
    page is not 0 is an array with more than 25 * page elements, so "Show
    more" never pages past the end of an array. *)
Theorem reachable_stores (v : JSValue) store :
  reachable v store →
  (∀ q, is_Some (store !! q) → q ∈ map paths (instances store (root v)))
  ∧ (is_collection v = true → expanded (getState store []) = true)
  ∧ (∀ q,
       page (getState store q) ≠ 0 →
       ∃ i items,
         i ∈ instances store (root v) ∧ paths i = q
         ∧ value i = VArray items
         ∧ 25 * page (getState store q) < length items).
Proof.
  induction 1 as [|store action Hreach (IH1 & IH2 & IH3) Hclick].
  { split; [|split].
    - intros q [? Hq]. by rewrite lookup_empty in Hq.
    - done.
    - intros q Hq. by destruct Hq. }
  apply list_elem_of_fmap in Hclick as (tr & Hclick & Htr).
  destruct (rows_handlers store _ tr action Htr (eq_sym Hclick))
    as (i & Hi & Hp & Hkind).
  assert (∀ j, j ∈ instances store (root v) →
               ∃ j', j' ∈ instances (dispatch store action) (root v)
                     ∧ paths j' = paths j ∧ value j' = value j) as Hkeep.
  { intros j Hj.
    assert (paths j ∈ map paths (instances (dispatch store action) (root v)))
      as Hj'.
    { apply dispatch_keeps_instances, list_elem_of_fmap. eauto. }
    apply list_elem_of_fmap in Hj' as (j' & Hpj & Hj').
    exists j'. split; [done|]. split; [done|].
    by apply (instances_value _ _ _ _ j' j Hj' Hj). }
  split; [|split].
  - intros q Hq.
    destruct (decide (q = Action_paths action)) as [->|Hne].
    + rewrite Hp. destruct (Hkeep i Hi) as (i' & Hi' & <- & _).
      apply list_elem_of_fmap. eauto.
    + assert (is_Some (store !! q)) as Hq'.
      { destruct action; simpl in *; by rewrite lookup_insert_ne in Hq. }
      apply IH1, list_elem_of_fmap in Hq' as (j & -> & Hj).
      destruct (Hkeep j Hj) as (j' & Hj' & <- & _).
      apply list_elem_of_fmap. eauto.
  - intros Hv. destruct (decide (Action_paths action = [])) as [E|Hne].
    + destruct action as [target|target]; simpl in E; subst target.
      * exfalso. destruct Hkind as [_ Hown]. simpl in Hp.
        apply elem_of_instances in Hi as [->|(c & Hc & Hi)].
        -- unfold has_own_row in Hown. simpl in Hown. by rewrite Hv in Hown.
        -- destruct (instances_below_longer _ _ _ _ _ Hc Hi) as (_ & _ & H).
           rewrite <- Hp in H. simpl in H. lia.
      * rewrite getState_dispatch_eq by auto. by apply IH2.
    + rewrite getState_dispatch_other by done. by apply IH2.
  - intros q Hq.
    destruct (decide (action = NextPage q)) as [->|Hne].
    + destruct Hkind as (items & Hitems & Hlt). simpl in Hp. subst q.
      destruct (Hkeep i Hi) as (i' & Hi' & Hpi & Hvi).
      exists i', items. split; [done|]. split; [done|].
      split; [congruence|].
      rewrite getState_dispatch_eq by auto. simpl. lia.
    + assert (page (getState (dispatch store action) q)
              = page (getState store q)) as Hpage.
      { destruct (decide (action = ClickKey q)) as [->|Hne'].
        - by rewrite getState_dispatch_eq by auto.
        - by rewrite getState_dispatch_ne. }
      rewrite Hpage in *.
      destruct (IH3 q Hq) as (j & items & Hj & Hpj & Hvj & Hlt).
      destruct (Hkeep j Hj) as (j' & Hj' & Hpj' & Hvj').
      exists j', items. repeat split; congruence.
Qed.

End Viewer.

Arguments VNull {Number}.
Arguments VBoolean {Number} b.
Arguments VNumber {Number} n.
Arguments VString {Number} s.
Arguments VArray {Number} items.
Arguments VObject {Number} props.
Arguments VUndefined {Number}.
Arguments Build_Props2 {Number} paths value label hide.
Arguments paths {Number} p.
Arguments value {Number} p.
Arguments label {Number} p.
Arguments hide {Number} p.
Arguments ETr {Number} tr.
Arguments EJSONViewerObj {Number} props.
Arguments root {Number} value.
Arguments render {Number} Number_toString props state.
Arguments keyRow {Number} Number_toString props state.
Arguments arrayChild {Number} props state items key.
Arguments objectChild {Number} props state entries key.
Arguments getValue {Number} Number_toString obj collapsed.
Arguments rows {Number} Number_toString store e.
Arguments instances {Number} Number_toString store e.
Arguments trs {Number} es.
Arguments children {Number} es.
Arguments nulls {Number} n.
Arguments at_root {Number} value.
Arguments under_a {Number} value.
Arguments mixed_keys {Number}.
Arguments thirty_keys {Number}.
Arguments doc_a {Number}.
Arguments doc_ab {Number}.
Arguments is_collection {Number} v.
Arguments isCollapsable {Number} obj.
Arguments getType {Number} value.
Arguments nextRow {Number} props state items.
Arguments reachable {Number} Number_toString v _.

(** * The theorems at concrete documents

    Numbers are taken to be natural numbers here, printed in decimal. *)

Lemma render_array_pagination_witness :
  value (at_root (nulls 60)) = VArray (replicate 60 (VNull (Number:=nat)))
  ∧ expanded (constructor []) = true
  ∧ render nat_toString (at_root (nulls 60)) (constructor [])
    = imap (λ key element,
              EJSONViewerObj
                {| paths := [lit "[" ++ nat_toString key ++ lit "]"];
                   value := element;
                   label := Some (LIndex key);
                   hide := false |})
        (replicate 25 VNull)
      ++ [ETr (TrNext 0 25 59 (NextPage []) (lit "Show 25 More"))].
Proof.
  split; [reflexivity|]. split; [reflexivity|].
  apply (render_array_pagination nat nat_toString (at_root (nulls 60))
           (constructor []) (replicate 60 VNull) eq_refl
           (or_introl eq_refl));
    reflexivity.
Defined.

Lemma getValue_long_string_witness :
  value (under_a (VString (Number:=nat) (replicate 250 97%N)))
  = VString (replicate 250 97%N)
  ∧ 100 < length (replicate 250 97%N)
  ∧ getValue nat_toString (VString (replicate 250 97%N)) true
    = Some (CellValue Tstring
              (replicate 45 97%N ++ ellipsis ++ replicate 45 97%N)).
Proof.
  split; [reflexivity|]. split; [vm_compute; lia|].
  apply (getValue_long_string nat nat_toString
           (under_a (VString (replicate 250 97%N)))
           (constructor [lit ".a"]) (replicate 250 97%N) eq_refl).
  vm_compute. lia.
Defined.

Lemma render_object_key_order_witness :
  value (at_root (VObject (Number:=nat) mixed_keys)) = VObject mixed_keys
  ∧ expanded (constructor []) = true
  ∧ ∃ numbered,
      render nat_toString (at_root (VObject mixed_keys)) (constructor [])
      = keyRow nat_toString (at_root (VObject mixed_keys)) (constructor [])
        ++ map (objectChild (at_root (VObject mixed_keys)) (constructor [])
                  mixed_keys)
             (map snd numbered
              ++ filter (λ k, is_array_index k = false)
                   (map fst (mixed_keys (Number:=nat))))
      ∧ StronglySorted (λ a b, (a.1 ≤ b.1)%N) numbered
      ∧ Forall (λ nk, array_index nk.2 = Some nk.1) numbered
      ∧ map snd numbered
        ≡ₚ filter (λ k, is_array_index k = true)
             (map fst (mixed_keys (Number:=nat))).
Proof.
  split; [reflexivity|]. split; [reflexivity|].
  apply (render_object_key_order nat nat_toString
           (at_root (VObject mixed_keys)) (constructor []) mixed_keys
           eq_refl (or_introl eq_refl)).
Defined.

Lemma render_object_no_pagination_witness :
  value (at_root (VObject (Number:=nat) thirty_keys)) = VObject thirty_keys
  ∧ expanded (constructor []) = true
  ∧ length (children (render nat_toString (at_root (VObject thirty_keys))
                        (constructor []))) = 30
  ∧ Forall (λ tr, is_TrNext tr = false)
      (trs (render nat_toString (at_root (VObject thirty_keys))
              (constructor []))).
Proof.
  split; [reflexivity|]. split; [reflexivity|].
  pose proof (render_object_no_pagination nat nat_toString
                (at_root (VObject thirty_keys)) (constructor [])
                thirty_keys eq_refl) as [H1 H2].
  split; [|exact H2].
  apply (H1 (or_introl eq_refl)).
Defined.

(** C3 as stated fails: an empty array at the root renders no row at all. *)
Lemma empty_root_renders_no_row :
  ¬ (1 ≤ length (rows nat_toString ∅ (root (nulls 0)))).
Proof. vm_compute. lia. Qed.

(** C4 as stated fails: of the keys "b" and "1", inserted in this order, the
    child of "1" comes first. *)
Lemma integer_key_moves_first :
  let entries : list (jsstring * JSValue nat) :=
    [(lit "b", VNull); (lit "1", VNull)] in
  map label (children (render nat_toString (at_root (VObject entries))
                         (constructor [])))
  = [Some (LKey (lit "1")); Some (LKey (lit "b"))]
  ∧ map label (children (render nat_toString (at_root (VObject entries))
                           (constructor [])))
    ≠ map (λ kv, Some (LKey kv.1)) entries.
Proof. split; [reflexivity|]. vm_compute. discriminate. Qed.

(** An array of 26 elements under the key "a", expanded by a click on the
    key and collapsed by a second click: the rows of the 25 elements shown
    are hidden; the row of key "next" after them is not. *)
Example collapsed_array_rows :
  let doc := root (VObject [(lit "a", nulls 26)]) in
  let toggle := ClickKey [lit ".a"] in
  let store2 := run ∅ [toggle; toggle] in
  expanded (getState store2 [lit ".a"]) = false
  ∧ map Tr_hide (rows nat_toString store2 doc)
    = false :: replicate 25 true ++ [false]
  ∧ last (rows nat_toString store2 doc)
    = Some (TrNext 1 25 25 (NextPage [lit ".a"]) (lit "Show Remaining")).
Proof. repeat split; reflexivity. Qed.

(** C5: the code misses the row of key "next". In the document
    [{"a": {"b": [null, ..., null]}}] with 26 elements, a click on the key
    "a" and a click on the key "b" expand the object and the array, and a
    second click on "a" collapses the object. The 28 rows are still there,
    the state of "b" is untouched and the rows of "b" and of its 25 elements
    shown are hidden, but the row of key "next" of "b", captioned "Show
    Remaining", carries no class and stays displayed under the collapsed
    object. *)
Theorem collapsed_object_next_row_displayed :
  let doc := root (VObject [(lit "a", VObject [(lit "b", nulls 26)])]) in
  let a := [lit ".a"] in
  let b := [lit ".a"; lit ".b"] in
  let store1 := dispatch ∅ (ClickKey a) in
  let store2 := dispatch store1 (ClickKey b) in
  let store3 := dispatch store2 (ClickKey a) in
  Some (ClickKey a) ∈ map Tr_onClick (rows nat_toString ∅ doc)
  ∧ Some (ClickKey b) ∈ map Tr_onClick (rows nat_toString store1 doc)
  ∧ Some (ClickKey a) ∈ map Tr_onClick (rows nat_toString store2 doc)
  ∧ expanded (getState store2 a) = true
  ∧ expanded (getState store3 a) = false
  ∧ getState store3 b = getState store2 b
  ∧ length (rows nat_toString store2 doc) = 28
  ∧ length (rows nat_toString store3 doc) = 28
  ∧ map Tr_hide (rows nat_toString store2 doc) = replicate 28 false
  ∧ map Tr_hide (rows nat_toString store3 doc)
    = false :: replicate 26 true ++ [false]
  ∧ last (rows nat_toString store3 doc)
    = Some (TrNext 2 25 25 (NextPage b) (lit "Show Remaining")).
Proof.
  repeat split; try reflexivity.
  - vm_compute. apply list_elem_of_here.
  - vm_compute. apply list_elem_of_further, list_elem_of_here.
  - vm_compute. apply list_elem_of_here.
Qed.

(** * The further theorems at concrete documents *)

Lemma largestWidth_is_maximum_witness :
  let gt := λ a b : nat, b <? a in
  let falsy := λ w : nat, w =? 0 in
  let viewers := [Some [3; 1]; None; Some []; Some [5]; Some [2]] in
  measured viewers = [3; 5; 2]
  ∧ ∃ largest,
      componentDidUpdate gt falsy None viewers = Some largest
      ∧ largest ∈ measured viewers
      ∧ ∀ w, w ∈ measured viewers → gt w largest = false.
Proof.
  intros gt falsy viewers. split; [reflexivity|].
  assert (∀ a, gt a a = false) as H1 by (intros a; apply Nat.ltb_irrefl).
  assert (∀ a b c, gt a b = true → gt b c = true → gt a c = true) as H2.
  { intros a b c Hab%Nat.ltb_lt Hbc%Nat.ltb_lt. apply Nat.ltb_lt. lia. }
  assert (∀ a b, gt a b = false → gt b a = false → a = b) as H3.
  { intros a b Hab%Nat.ltb_ge Hba%Nat.ltb_ge. lia. }
  assert (∀ z w, falsy z = true → w ∈ measured viewers → gt z w = false)
    as Hpos.
  { intros z w Hz%Nat.eqb_eq _. apply Nat.ltb_ge. lia. }
  apply (largestWidth_is_maximum gt falsy H1 H2 H3 viewers Hpos).
  discriminate.
Defined.

Lemma getValue_scalar_witness :
  is_collection (VString (Number:=nat) (lit "abc")) = false
  ∧ ∃ displayValue,
      getValue nat_toString (VString (lit "abc")) true
      = Some (CellValue Tstring displayValue)
      ∧ length displayValue ≤ 3
      ∧ (3 ≤ 100 ∨ true = false → displayValue = lit "abc")
      ∧ (displayValue ≠ lit "abc" → 100 < 3 ∧ length displayValue = 91).
Proof.
  split; [reflexivity|].
  apply (getValue_scalar nat nat_toString (VString (lit "abc")) true).
  reflexivity.
Defined.

Lemma pagination_reveals_all_witness :
  value (at_root (nulls 60)) = VArray (replicate 60 (VNull (Number:=nat)))
  ∧ expanded (constructor []) = true
  ∧ length (children (render nat_toString (at_root (nulls 60))
                        (Nat.iter 2 handleNextPage (constructor []))))
    = 60
  ∧ nextRow (at_root (nulls 60))
      (Nat.iter 2 handleNextPage (constructor []))
      (replicate 60 (VNull (Number:=nat))) = [].
Proof.
  split; [reflexivity|]. split; [reflexivity|].
  pose proof (pagination_reveals_all nat nat_toString (at_root (nulls 60))
                (constructor []) (replicate 60 VNull) eq_refl
                (or_introl eq_refl)) as (_ & _ & H & _).
  apply (H 2). vm_compute. lia.
Defined.

Lemma hidden_iff_ancestor_collapsed_witness :
  let a := [lit ".a"] in
  let b := [lit ".a"; lit ".b"] in
  let store := run ∅ [ClickKey a; ClickKey b; ClickKey a] in
  let i := {| paths := b; value := nulls 26; label := Some (LKey (lit "b"));
              hide := true |} in
  i ∈ instances nat_toString store (root doc_ab)
  ∧ (hide i = true
     ↔ false = true
       ∨ ∃ ancestor,
           [] `prefix_of` ancestor
           ∧ ancestor `prefix_of` b
           ∧ ancestor ≠ b
           ∧ collapsed (getState store ancestor) = true).
Proof.
  intros a b store i.
  assert (i ∈ instances nat_toString store (root doc_ab)) as Hi.
  { vm_compute. apply list_elem_of_further, list_elem_of_further,
      list_elem_of_here. }
  split; [exact Hi|].
  apply (hidden_iff_ancestor_collapsed nat nat_toString store _ i Hi).
Defined.

Lemma handlers_of_mounted_instances_witness :
  Some (ClickKey [lit ".a"])
  ∈ map Tr_onClick (rows nat_toString ∅ (root doc_a))
  ∧ ∃ i,
      i ∈ instances nat_toString ∅ (root doc_a)
      ∧ [lit ".a"] = paths i
      ∧ isCollapsable (value i) = true
      ∧ (is_collection (doc_a (Number:=nat)) = true → [lit ".a"] ≠ []).
Proof.
  assert (Some (ClickKey [lit ".a"])
          ∈ map Tr_onClick (rows nat_toString ∅ (root doc_a))) as H
    by (vm_compute; apply list_elem_of_here).
  split; [exact H|].
  apply (handlers_of_mounted_instances nat nat_toString ∅ doc_a
           (ClickKey [lit ".a"]) H).
Defined.

Lemma reachable_stores_witness :
  let store := dispatch ∅ (ClickKey [lit ".a"]) in
  reachable nat_toString doc_a store
  ∧ expanded (getState store []) = true
  ∧ ∀ q, is_Some (store !! q) →
         q ∈ map paths (instances nat_toString store (root doc_a)).
Proof.
  intros store.
  assert (reachable nat_toString doc_a store) as H.
  { apply reachable_click; [apply reachable_init|].
    vm_compute. apply list_elem_of_here. }
  split; [exact H|].
  pose proof (reachable_stores nat nat_toString doc_a store H)
    as (H1 & H2 & _).
  split; [apply H2; reflexivity|exact H1].
Defined.

Lemma collapse_retains_witness :
  let store := dispatch ∅ (ClickKey [lit ".a"]) in
  let store' := dispatch store (ClickKey [lit ".a"]) in
  is_collection (value (under_a (nulls (Number:=nat) 26))) = true
  ∧ expanded (getState store [lit ".a"]) = true
  ∧ ∃ body,
      rows nat_toString store (EJSONViewerObj (under_a (nulls 26)))
      = trs (keyRow nat_toString (under_a (nulls 26))
               (getState store [lit ".a"])) ++ body
      ∧ rows nat_toString store' (EJSONViewerObj (under_a (nulls 26)))
        = trs (keyRow nat_toString (under_a (nulls 26))
                 (getState store' [lit ".a"])) ++ map hidden_row body
      ∧ ∀ q, q ≠ [lit ".a"] → getState store' q = getState store q.
Proof.
  intros store store'. split; [reflexivity|]. split; [reflexivity|].
  apply (collapse_retains nat nat_toString store (under_a (nulls 26)));
    reflexivity.
Defined.

Lemma instances_dispatch_witness :
  [lit ".a"] ∈ map paths (instances nat_toString ∅ (root doc_a))
  ∧ [lit ".a"]
    ∈ map paths
        (instances nat_toString (dispatch ∅ (ClickKey [lit ".a"]))
           (root doc_a)).
Proof.
  assert ([lit ".a"] ∈ map paths (instances nat_toString ∅ (root doc_a)))
    as H by (vm_compute; apply list_elem_of_further, list_elem_of_here).
  split; [exact H|].
  apply (instances_dispatch nat nat_toString ∅ (ClickKey [lit ".a"])
           (root doc_a) [lit ".a"] H).
Defined.
